(** * Shallow embedding of the RAG chatbot core of TempAI

    Sources: [src/rag_chatbot/video_processor.py] (the text chunker, video
    id extraction and the ingestion pipeline) and
    [src/rag_chatbot/qa_engine.py] (the answering engine).

    Modelling conventions.
    - A Python [str] is a [list ascii]; one [ascii] stands for one Python
      character (code point), so [len] is [length].
    - Python integers used as indices are [Z]; slicing and [str.rfind]
      follow CPython's index adjustment (negative indices count from the
      end, then clamp to [0, len]).
    - The [while] loop of [_chunk_text] is run with a fuel bound on its
      number of iterations; [None] means the loop had not stopped when the
      fuel ran out.
    - The fixed messages with an emoji hold its UTF-8 bytes; no length is
      ever taken of them.
    - ChromaDB, the embedding model, Ollama and the YouTube fetcher are
      collaborators: records of functions, or (for Chroma) a small model of
      the calls the code makes. *)

From Stdlib Require Import ZArith QArith List String Ascii Bool Lia Lqa Sorted.
From stdpp Require Import base gmap strings pretty.

Import ListNotations.
Open Scope Z_scope.

Abbreviation text := (list ascii).

Definition lit (s : string) : text := list_ascii_of_string s.

Definition zlen (t : text) : Z := Z.of_nat (length t).

(** ** Python string primitives *)

(** CPython's ADJUST_INDICES for slices and [str.rfind]. *)
Definition adjust_index (i n : Z) : Z :=
  if i <? 0 then Z.max 0 (i + n) else Z.min i n.

(** [t[a:b]] *)
Definition py_slice (t : text) (a b : Z) : text :=
  let n := zlen t in
  let a' := adjust_index a n in
  let b' := adjust_index b n in
  firstn (Z.to_nat (b' - a')) (skipn (Z.to_nat a') t).

(** [t[i:i+len(sub)] == sub] for [0 <= i]. *)
Definition matches_at (t sub : text) (i : Z) : bool :=
  bool_decide (firstn (length sub) (skipn (Z.to_nat i) t) = sub).

(** Scan [i, i-1, ..., lo] for the highest match. *)
Fixpoint rfind_down (t sub : text) (lo : Z) (k : nat) (i : Z) : Z :=
  match k with
  | O => -1
  | S k' =>
      if i <? lo then -1
      else if matches_at t sub i then i
      else rfind_down t sub lo k' (i - 1)
  end.

(** [t.rfind(sub, a, b)]: the highest [i] with [a <= i] and
    [i + len(sub) <= b] where [sub] occurs, or [-1]. *)
Definition rfind (t sub : text) (a b : Z) : Z :=
  let n := zlen t in
  let a' := adjust_index a n in
  let b' := adjust_index b n in
  let top := b' - zlen sub in
  rfind_down t sub a' (Z.to_nat (top - a' + 1)) top.

(** [str.isspace] on one character (the ASCII whitespace of CPython:
    \t \n \x0b \x0c \r, \x1c..\x1f and the space). *)
Definition is_py_space (c : ascii) : bool :=
  let n := nat_of_ascii c in
  ((9 <=? n) && (n <=? 13))%nat || ((28 <=? n) && (n <=? 32))%nat.

Fixpoint lstrip (t : text) : text :=
  match t with
  | [] => []
  | c :: r => if is_py_space c then lstrip r else t
  end.

(** [t.strip()] *)
Definition strip (t : text) : text := rev (lstrip (rev (lstrip t))).

(** ** [VideoProcessor._chunk_text] *)

Definition separators : list text :=
  [lit ". "; [ "."%char; "010"%char ]; lit "! "; [ "?"%char; "010"%char ];
   lit "? "].

(** The inner [for separator in [...]] loop with its [break]. *)
Fixpoint cut_at (t : text) (start end_ : Z) (seps : list text) : Z :=
  match seps with
  | [] => end_
  | sep :: rest =>
      let last_separator := rfind t sep start end_ in
      if negb (last_separator =? -1) then last_separator + 1
      else cut_at t start end_ rest
  end.

(** [end] after [end = start + chunk_size] and the boundary search. *)
Definition window_end (t : text) (chunk_size start : Z) : Z :=
  let end0 := start + chunk_size in
  if end0 <? zlen t then cut_at t start end0 separators else end0.

(** One iteration of the [while] body: the new [start] and the chunk
    appended, if any. *)
Definition chunk_step (t : text) (chunk_size chunk_overlap start : Z)
  : Z * option text :=
  let text_length := zlen t in
  let end_ := window_end t chunk_size start in
  let chunk := strip (py_slice t start end_) in
  let appended := match chunk with [] => None | _ => Some chunk end in
  let start' := if end_ <? text_length then end_ - chunk_overlap
                else text_length in
  (start', appended).

Definition push (acc : list text) (o : option text) : list text :=
  match o with Some c => acc ++ [c] | None => acc end.

Fixpoint chunk_loop (fuel : nat) (t : text) (chunk_size chunk_overlap : Z)
  (start : Z) (chunks : list text) : option (list text) :=
  match fuel with
  | O => None
  | S fuel' =>
      if start <? zlen t then
        let '(start', appended) := chunk_step t chunk_size chunk_overlap start in
        chunk_loop fuel' t chunk_size chunk_overlap start' (push chunks appended)
      else Some chunks
  end.

Definition _chunk_text (fuel : nat) (t : text) (chunk_size chunk_overlap : Z)
  : option (list text) :=
  match t with
  | [] => Some []
  | _ => chunk_loop fuel t chunk_size chunk_overlap 0 []
  end.

(** A 651-character text whose only sentence end ". " starts at index 49:
    with the default [chunk_size = 500] and [chunk_overlap = 50] the first
    cut is at 50, and [50 - 50] brings [start] back to 0. *)
Definition stuck_text : text :=
  repeat "a"%char 49 ++ lit ". " ++ repeat "b"%char 600.

Definition stuck_chunk : text := repeat "a"%char 49 ++ lit ".".

(** ** Results of calls that can fail

    [RErr msg] is an error dictionary [{"error": msg}] returned by a
    collaborator or an exception with message [msg] raised by it. *)
Inductive result (A : Type) : Type :=
| ROk (a : A)
| RErr (msg : string).
Arguments ROk {A} a.
Arguments RErr {A} msg.

(** ** [VideoProcessor._extract_video_id] *)

(** The character class [[^&\n?]]. *)
Definition id_char (c : ascii) : bool :=
  negb (bool_decide (c = "&"%char) || bool_decide (c = "010"%char)
        || bool_decide (c = "?"%char)).

Fixpoint take_while (p : ascii -> bool) (s : text) : text :=
  match s with
  | [] => []
  | c :: r => if p c then c :: take_while p r else []
  end.

Fixpoint is_prefix (p s : text) : bool :=
  match p, s with
  | [], _ => true
  | c :: p', d :: s' => bool_decide (c = d) && is_prefix p' s'
  | _ :: _, [] => false
  end.

(** The alternatives of one pattern tried at one position, in order, each
    followed by the greedy capture group of [id_char] characters. *)
Fixpoint try_alternatives (alts : list text) (s : text) : option text :=
  match alts with
  | [] => None
  | a :: rest =>
      if is_prefix a s then Some (take_while id_char (skipn (length a) s))
      else try_alternatives rest s
  end.

(** [re.search]: the leftmost position where one alternative matches. *)
Fixpoint re_search (alts : list text) (s : text) : option text :=
  match try_alternatives alts s with
  | Some g => Some g
  | None => match s with [] => None | _ :: s' => re_search alts s' end
  end.

Definition url_patterns : list (list text) :=
  [[lit "youtube.com/watch?v="; lit "youtu.be/"];
   [lit "youtube.com/embed/"];
   [lit "youtube.com/v/"]].

Fixpoint first_match (pats : list (list text)) (s : text) : option text :=
  match pats with
  | [] => None
  | p :: rest =>
      match re_search p s with Some g => Some g | None => first_match rest s end
  end.

Definition _extract_video_id (url : string) : string :=
  match first_match url_patterns (lit url) with
  | Some g => string_of_list_ascii g
  | None => url
  end.

(** ** The embedding model and the ChromaDB store *)

(** A vector of floats, floats read as rationals. *)
Abbreviation vec := (list Q).

(** [EmbeddingModel]: [embed_text] and [embed_batch] both run the
    sentence-transformers encoder, item by item. *)
Record EmbeddingModel := { encode : text -> vec }.

Definition embed_text (m : EmbeddingModel) (t : text) : vec := encode m t.

Definition embed_batch (m : EmbeddingModel) (ts : list text) : list vec :=
  map (encode m) ts.

(** The per-chunk metadata dictionary written by [process_video]; the
    answering engine reads [chunk_index] with [.get], so it may be absent. *)
Record chunk_meta := {
  m_video_id : string;
  m_video_title : string;
  m_channel : string;
  m_chunk_index : option nat;
  m_total_chunks : nat;
  m_upload_date : string;
  m_video_url : string }.

Record stored_chunk := {
  s_id : string;
  s_embedding : vec;
  s_document : text;
  s_metadata : chunk_meta }.

(** A collection: its metadata dictionary (each key possibly absent) and
    its records in insertion order. *)
Record collection := {
  c_video_id : option string;
  c_video_title : option string;
  c_channel : option string;
  c_items : list stored_chunk }.

(** The persistent client: collections by name. *)
Abbreviation store := (gmap string collection).

Definition count (c : collection) : nat := length (c_items c).

(** [get_or_create_collection]: an existing collection keeps its metadata. *)
Definition get_or_create_collection (db : store) (name : string)
  (vid title channel : string) : collection :=
  match db !! name with
  | Some c => c
  | None => {| c_video_id := Some vid; c_video_title := Some title;
               c_channel := Some channel; c_items := [] |}
  end.

(** [collection.add] *)
Definition collection_add (c : collection) (new : list stored_chunk)
  : collection :=
  {| c_video_id := c_video_id c; c_video_title := c_video_title c;
     c_channel := c_channel c; c_items := c_items c ++ new |}.

(** Squared L2 distance, Chroma's default space. *)
Fixpoint sq_l2 (u v : vec) : Q :=
  match u, v with
  | x :: u', y :: v' => ((x - y) * (x - y) + sq_l2 u' v')%Q
  | _, _ => 0%Q
  end.

Fixpoint insert_by_distance (x : text * chunk_meta * Q)
  (l : list (text * chunk_meta * Q)) : list (text * chunk_meta * Q) :=
  match l with
  | [] => [x]
  | y :: l' =>
      if Qle_bool (snd x) (snd y) then x :: l else y :: insert_by_distance x l'
  end.

(** [collection.query(query_embeddings=[q], n_results=n)]: the [n]
    nearest records by ascending distance.  Chroma's [validate_n_results]
    rejects [n <= 0] with a [TypeError]. *)
Definition n_results_error (n : Z) : string :=
  ("Number of requested results " ++ pretty n ++
   ", cannot be negative, or zero.")%string.

Definition chroma_query (c : collection) (q : vec) (n : Z)
  : result (list (text * chunk_meta * Q)) :=
  if n <=? 0 then RErr (n_results_error n)
  else
    let scored := map (fun s => (s_document s, s_metadata s,
                                 sq_l2 (s_embedding s) q)) (c_items c) in
    ROk (firstn (Z.to_nat n) (foldr insert_by_distance [] scored)).

(** ** [VideoProcessor.process_video] *)

(** The dictionary returned by [YouTubeAnalyzer.get_video_info]; the keys
    read by [process_video] with [.get], each possibly absent ([None] for
    [description] also covers a [None] value). *)
Record video_info := {
  vi_title : option string;
  vi_channel : option string;
  vi_upload_date : option string;
  vi_description : option text }.

(** The fetcher collaborator: only the presence of an ["error"] key of the
    transcript dictionary is read; its text is the payload of [ROk]. *)
Record YouTubeAnalyzer := {
  get_video_info : string -> result video_info;
  get_transcript : string -> result text }.

Inductive ingest_result :=
| IngestSuccess (video_id collection_name : string) (info : video_info)
    (chunk_count : nat)
| AlreadyExists (video_id collection_name : string) (chunk_count : nat)
| IngestError (error : string).

Definition ingest_status (r : ingest_result) : string :=
  match r with
  | IngestSuccess _ _ _ _ => "success"
  | AlreadyExists _ _ _ => "already_exists"
  | IngestError _ => "error"
  end.

Definition no_text_error : string :=
  "No transcript or description available for this video".

Definition no_chunks_error : string :=
  "Failed to create chunks from video content".

Definition get_or (d : string) (o : option string) : string :=
  match o with Some s => s | None => d end.

Definition chunk_records (video_id url : string) (info : video_info)
  (chunks : list text) (embeddings : list vec) : list stored_chunk :=
  imap (fun i '(doc, e) =>
          {| s_id := ("chunk_" ++ pretty (N.of_nat i))%string;
             s_embedding := e;
             s_document := doc;
             s_metadata :=
               {| m_video_id := video_id;
                  m_video_title := get_or "Unknown" (vi_title info);
                  m_channel := get_or "Unknown" (vi_channel info);
                  m_chunk_index := Some i;
                  m_total_chunks := length chunks;
                  m_upload_date := get_or "Unknown" (vi_upload_date info);
                  m_video_url := url |} |})
       (combine chunks embeddings).

(** Everything after the "already processed" check. *)
Definition process_new_video (fuel : nat) (yt : YouTubeAnalyzer)
  (em : EmbeddingModel) (db : store) (video_url video_id collection_name : string)
  (chunk_size chunk_overlap : Z) : option (ingest_result * store) :=
  match get_video_info yt video_url with
  | RErr e => Some (IngestError e, db)
  | ROk info =>
      match get_transcript yt video_url with
      | RErr e => Some (IngestError e, db)
      | ROk _ =>
          let text_content := match vi_description info with
                              | Some d => d | None => [] end in
          if (match text_content with [] => true | _ => false end)
             || (zlen text_content <? 50)
          then Some (IngestError no_text_error, db)
          else
            match _chunk_text fuel text_content chunk_size chunk_overlap with
            | None => None
            | Some [] => Some (IngestError no_chunks_error, db)
            | Some chunks =>
                let embeddings := embed_batch em chunks in
                let coll := get_or_create_collection db collection_name video_id
                              (get_or "Unknown" (vi_title info))
                              (get_or "Unknown" (vi_channel info)) in
                let coll' := collection_add coll
                               (chunk_records video_id video_url info chunks
                                  embeddings) in
                Some (IngestSuccess video_id collection_name info
                        (length chunks),
                      <[collection_name := coll']> db)
            end
      end
  end.

Definition process_video (fuel : nat) (yt : YouTubeAnalyzer)
  (em : EmbeddingModel) (db : store) (video_url : string)
  (chunk_size chunk_overlap : Z) : option (ingest_result * store) :=
  let video_id := _extract_video_id video_url in
  let collection_name := ("video_" ++ video_id)%string in
  match db !! collection_name with
  | Some existing =>
      if (0 <? count existing)%nat
      then Some (AlreadyExists video_id collection_name (count existing), db)
      else process_new_video fuel yt em db video_url video_id collection_name
             chunk_size chunk_overlap
  | None =>
      process_new_video fuel yt em db video_url video_id collection_name
        chunk_size chunk_overlap
  end.

(** ** [rag_chatbot.prompts] *)

Definition nl : ascii := "010"%char.

(** Lines of a triple-quoted literal whose closing quotes stand on a line
    of their own: every line ends with a newline. *)
Definition text_lines (ls : list string) : text :=
  concat (map (fun l => lit l ++ [nl]) ls).

Definition QA_SYSTEM_PROMPT : text :=
  text_lines
    ["You are a helpful AI assistant that answers questions about YouTube videos based on their transcripts.";
     "";
     "You will be provided with relevant excerpts from a video transcript, along with timestamps.";
     "Your task is to answer the user's question using ONLY the information provided in the context.";
     "";
     "Guidelines:";
     "- Base your answer strictly on the provided context";
     "- Include specific timestamps when referencing information";
     "- If the context doesn't contain enough information to answer, say so honestly";
     "- Be concise but complete";
     "- Use natural language, as if explaining to a friend";
     "- If multiple parts of the video discuss the topic, synthesize the information"].

(** [QA_PROMPT_TEMPLATE.format(...)] *)
Definition qa_prompt (video_title channel : string) (context question : text)
  : text :=
  lit "Video: " ++ lit video_title ++ [nl] ++
  lit "Channel: " ++ lit channel ++ [nl; nl] ++
  lit "Context from video transcript:" ++ [nl] ++ context ++ [nl; nl] ++
  lit "Question: " ++ question ++ [nl; nl] ++
  lit "Answer the question based on the context above. Include relevant timestamps in your response.".

(** [CONTEXT_CHUNK_TEMPLATE.format(timestamp=..., text=...)] *)
Definition context_chunk (timestamp chunk : text) : text :=
  lit "[" ++ timestamp ++ lit "] " ++ chunk.

Definition NO_CONTEXT_RESPONSE : text :=
  lit "I don't have enough information from the video transcript to answer that question. The video might not cover that topic, or the transcript might be incomplete.".

(** ** [QAEngine.answer_question] *)

(** The [ollama] module: whether its import succeeded, whether
    [ollama.list()] returns, and [ollama.generate(model, prompt, system,
    temperature, num_predict)] returning the ["response"] text or raising. *)
Record OllamaBackend := {
  ollama_imported : bool;
  ollama_list_ok : bool;
  ollama_generate : string -> text -> text -> Q -> Z -> result text }.

Record QAEngine := {
  qa_embedding_model : EmbeddingModel;
  qa_llm_model : string;
  qa_top_k : Z }.

(** The calls [answer_question] makes to its collaborators, in order. *)
Inductive event :=
| EvGetCollection (name : string)
| EvEmbedQuestion (question : text)
| EvQuery (name : string) (n_results : Z)
| EvListModels
| EvGenerate (model : string) (prompt : text).

(** [_check_ollama] *)
Definition _check_ollama (be : OllamaBackend) : bool * list event :=
  if ollama_imported be then (ollama_list_ok be, [EvListModels])
  else (false, []).

Record source := {
  src_chunk_index : nat;
  src_timestamp : text;
  src_text_preview : text;
  src_relevance_score : Q }.

(** [f"Part {chunk_idx + 1}"] *)
Definition part_label (chunk_idx : nat) : text :=
  lit "Part " ++ lit (pretty (N.of_nat (chunk_idx + 1))).

(** [metadata.get('chunk_index', i)] *)
Definition chunk_idx_of (i : nat) (m : chunk_meta) : nat :=
  match m_chunk_index m with Some k => k | None => i end.

(** [chunk[:100] + "..." if len(chunk) > 100 else chunk] *)
Definition text_preview (chunk : text) : text :=
  if (100 <? length chunk)%nat then firstn 100 chunk ++ lit "..." else chunk.

Definition make_source (i : nat) (r : text * chunk_meta * Q) : source :=
  let '(chunk, metadata, distance) := r in
  let chunk_idx := chunk_idx_of i metadata in
  {| src_chunk_index := chunk_idx;
     src_timestamp := part_label chunk_idx;
     src_text_preview := text_preview chunk;
     src_relevance_score := (1 - distance)%Q |}.

Definition make_context_part (i : nat) (r : text * chunk_meta * Q) : text :=
  let '(chunk, metadata, _) := r in
  context_chunk (part_label (chunk_idx_of i metadata)) chunk.

(** [sep.join(parts)] *)
Fixpoint join (sep : text) (parts : list text) : text :=
  match parts with
  | [] => []
  | [p] => p
  | p :: rest => p ++ sep ++ join sep rest
  end.

Definition build_sources (rs : list (text * chunk_meta * Q)) : list source :=
  imap make_source rs.

Definition build_context (rs : list (text * chunk_meta * Q)) : text :=
  join [nl; nl] (imap make_context_part rs).

Definition no_llm_prefix : text :=
  lit "⚠️ Ollama is not available. Here's the relevant context from the video:"
  ++ [nl; nl].

Definition llm_error_answer (e : string) (context : text) : text :=
  lit "⚠️ Error generating answer: " ++ lit e ++ [nl; nl] ++
  lit "Relevant context:" ++ [nl; nl] ++ context.

(** The returned dictionaries, by status; [AnsRaises] is an exception
    escaping [answer_question]. *)
Inductive answer_result :=
| AnsError (error : string)
| AnsNoContext (answer : text)
| AnsNoLLM (answer : text) (sources : list source) (video_title video_id : string)
| AnsSuccess (answer : text) (sources : list source) (video_title video_id : string)
    (model_used : string)
| AnsLLMError (answer : text) (sources : list source)
    (video_title video_id : string) (error : string)
| AnsRaises (exn : string).

Definition answer_status (r : answer_result) : option string :=
  match r with
  | AnsError _ => Some "error"
  | AnsNoContext _ => Some "no_context"
  | AnsNoLLM _ _ _ _ => Some "no_llm"
  | AnsSuccess _ _ _ _ _ => Some "success"
  | AnsLLMError _ _ _ _ _ => Some "llm_error"
  | AnsRaises _ => None
  end.

Definition answer_sources (r : answer_result) : list source :=
  match r with
  | AnsNoLLM _ s _ _ | AnsSuccess _ s _ _ _ | AnsLLMError _ s _ _ _ => s
  | _ => []
  end.

(** The message of Chroma's exception for a missing collection. *)
Definition missing_collection_msg (name : string) : string :=
  ("Collection " ++ name ++ " does not exist.")%string.

Definition answer_question (qa : QAEngine) (be : OllamaBackend) (db : store)
  (question : text) (video_id : string) (temperature : Q) (max_tokens : Z)
  : answer_result * list event :=
  let collection_name := ("video_" ++ video_id)%string in
  match db !! collection_name with
  | None =>
      (AnsError ("Video not found. Please process the video first. (" ++
                 missing_collection_msg collection_name ++ ")")%string,
       [EvGetCollection collection_name])
  | Some coll =>
      let video_title := get_or "Unknown" (c_video_title coll) in
      let channel := get_or "Unknown" (c_channel coll) in
      let question_embedding := embed_text (qa_embedding_model qa) question in
      let n := Z.min (qa_top_k qa) (Z.of_nat (count coll)) in
      let evs := [EvGetCollection collection_name; EvEmbedQuestion question;
                  EvQuery collection_name n] in
      match chroma_query coll question_embedding n with
      | RErr e => (AnsRaises e, evs)
      | ROk [] => (AnsNoContext NO_CONTEXT_RESPONSE, evs)
      | ROk results =>
          let sources := build_sources results in
          let context := build_context results in
          let prompt := qa_prompt video_title channel context question in
          let '(available, evs_check) := _check_ollama be in
          if negb available then
            (AnsNoLLM (no_llm_prefix ++ context) sources video_title video_id,
             evs ++ evs_check)
          else
            let evs' := evs ++ evs_check ++ [EvGenerate (qa_llm_model qa) prompt] in
            match ollama_generate be (qa_llm_model qa) prompt QA_SYSTEM_PROMPT
                    temperature max_tokens with
            | ROk response =>
                (AnsSuccess (strip response) sources video_title video_id
                   (qa_llm_model qa), evs')
            | RErr e =>
                (AnsLLMError (llm_error_answer e context) sources video_title
                   video_id e, evs')
            end
      end
  end.

(** Whether Chroma already holds at least one record under [name]: the
    condition of the early return of [process_video]. *)
Definition has_data (db : store) (name : string) : bool :=
  match db !! name with Some c => (0 <? count c)%nat | None => false end.

(** ** Listing and deleting processed videos *)

(** [s.replace(sub, rep)] for a non-empty [sub]: a left-to-right scan
    replacing non-overlapping occurrences; [drop] counts the characters of
    the occurrence just replaced that are still to be skipped. *)
Fixpoint replace_go (sub rep : text) (drop : nat) (s : text) : text :=
  match s with
  | [] => []
  | c :: r =>
      match drop with
      | S d => replace_go sub rep d r
      | O => if is_prefix sub s then rep ++ replace_go sub rep (length sub - 1) r
             else c :: replace_go sub rep 0 r
      end
  end.

Definition py_replace (sub rep s : text) : text := replace_go sub rep 0 s.

(** [chroma_client.list_collections()]: every collection with its name.
    Chroma's own order is not modelled; the statements below only use
    membership, or compare two listings made from the same call. *)
Definition list_collections (db : store) : list (string * collection) :=
  map_to_list db.

Record processed_video := {
  pv_video_id : string;
  pv_collection_name : string;
  pv_title : string;
  pv_channel : string;
  pv_chunk_count : nat }.

(** The loop body of [VideoProcessor.list_processed_videos]. *)
Definition processed_entry (nc : string * collection) : option processed_video :=
  let '(name, c) := nc in
  if is_prefix (lit "video_") (lit name) then
    Some {| pv_video_id :=
              string_of_list_ascii (py_replace (lit "video_") [] (lit name));
            pv_collection_name := name;
            pv_title := get_or "Unknown" (c_video_title c);
            pv_channel := get_or "Unknown" (c_channel c);
            pv_chunk_count := count c |}
  else None.

Definition list_processed_videos (db : store) : list processed_video :=
  omap processed_entry (list_collections db).

Record available_video := {
  av_video_id : string;
  av_title : string;
  av_channel : string;
  av_chunks : nat }.

(** The loop body of [QAEngine.list_available_videos]. *)
Definition available_entry (nc : string * collection) : option available_video :=
  let '(name, c) := nc in
  if is_prefix (lit "video_") (lit name) then
    Some {| av_video_id :=
              string_of_list_ascii (py_replace (lit "video_") [] (lit name));
            av_title := get_or "Unknown" (c_video_title c);
            av_channel := get_or "Unknown" (c_channel c);
            av_chunks := count c |}
  else None.

Definition list_available_videos (db : store) : list available_video :=
  omap available_entry (list_collections db).

(** [VideoProcessor.delete_video]: [delete_collection] raises for a missing
    collection, which the bare [except] turns into [False]. *)
Definition delete_video (db : store) (video_id : string) : bool * store :=
  let collection_name := ("video_" ++ video_id)%string in
  match db !! collection_name with
  | Some _ => (true, delete collection_name db)
  | None => (false, db)
  end.

(** ** Sample inputs *)

(** Collaborators that fail every fetch and embed everything as [[0]]. *)
Definition offline_analyzer : YouTubeAnalyzer :=
  {| get_video_info := fun _ => RErr "offline";
     get_transcript := fun _ => RErr "offline" |}.

Definition zero_model : EmbeddingModel := {| encode := fun _ => [0%Q] |}.

Definition sample_meta (i : nat) : chunk_meta :=
  {| m_video_id := "abc"; m_video_title := "T"; m_channel := "C";
     m_chunk_index := Some i; m_total_chunks := 1; m_upload_date := "Unknown";
     m_video_url := "abc" |}.

Definition sample_collection (items : list stored_chunk) : collection :=
  {| c_video_id := Some "abc"; c_video_title := Some "T"; c_channel := Some "C";
     c_items := items |}.

Definition one_chunk_collection : collection :=
  sample_collection
    [{| s_id := "chunk_0"; s_embedding := [0%Q]; s_document := lit "Hello.";
        s_metadata := sample_meta 0 |}].

Definition default_engine : QAEngine :=
  {| qa_embedding_model := zero_model; qa_llm_model := "llama3.2";
     qa_top_k := 5 |}.

Definition no_ollama : OllamaBackend :=
  {| ollama_imported := false; ollama_list_ok := false;
     ollama_generate := fun _ _ _ _ _ => RErr "unreachable" |}.

(** Text whose window [[0, 10)] holds ". " at 1 and "! " at 4. *)
Definition two_terminators : text := lit "A. B! cccccccccccccccccccc".

(** A fetcher answering every URL with a description [desc] and the
    transcript result [transcript]. *)
Definition sample_info (desc : string) : video_info :=
  {| vi_title := Some "T"; vi_channel := Some "C";
     vi_upload_date := Some "20240101"; vi_description := Some (lit desc) |}.

Definition sample_analyzer (desc : string) (transcript : result text)
  : YouTubeAnalyzer :=
  {| get_video_info := fun _ => ROk (sample_info desc);
     get_transcript := fun _ => transcript |}.

(** A description long enough to pass the 50-character gate. *)
Definition long_desc : string :=
  "A walk through the chunker: one description, read in full.".

(** A watch URL, and a store that already holds another video. *)
Definition sample_url : string := "https://www.youtube.com/watch?v=abc123XYZ_-".

Definition other_store : store := <["video_other" := one_chunk_collection]> ∅.

(** An Ollama that is installed and running but fails every generation. *)
Definition failing_ollama : OllamaBackend :=
  {| ollama_imported := true; ollama_list_ok := true;
     ollama_generate := fun _ _ _ _ _ => RErr "model not found" |}.

(** The video id of a successful [process_video] run. *)
Definition success_id (o : option (ingest_result * store)) : option string :=
  match o with Some (IngestSuccess v _ _ _, _) => Some v | _ => None end.

(** The first [ollama.generate] call of a trace. *)
Fixpoint find_generate (evs : list event) : option (string * text) :=
  match evs with
  | [] => None
  | EvGenerate model prompt :: _ => Some (model, prompt)
  | _ :: rest => find_generate rest
  end.

(** [sep] occurs at [i], entirely inside the window [[a, b)]. *)
Definition occurs_in (t sep : text) (a b i : Z) : Prop :=
  a <= i /\ i + zlen sep <= b /\ matches_at t sep i = true.

(** Every emitted chunk is non-empty and not all whitespace. *)
Definition good_chunk (c : text) : Prop :=
  c <> [] /\ forallb is_py_space c = false.

Definition description_of (info : video_info) : text :=
  match vi_description info with Some d => d | None => [] end.

(** [infix x y]: [x] occurs in [y] as one contiguous piece (Python's
    [x in y] for strings). *)
Definition infix {A} (x y : list A) : Prop := exists k1 k2, y = k1 ++ x ++ k2.

(** A decision procedure for [infix]. *)
Fixpoint occurs_b (sub s : text) : bool :=
  is_prefix sub s || match s with [] => false | _ :: r => occurs_b sub r end.

(** ** General facts about the chunker *)

Example chunk_small :
  _chunk_text 10 (lit "One. Two. Three.") 8 0
  = Some [lit "One."; lit "Two."; lit "Three."].
Proof. reflexivity. Qed.

Example rfind_neg : rfind (lit "abc. d") (lit ". ") (-3) 2 = -1.
Proof. reflexivity. Qed.


Lemma chunk_loop_unfold fuel t sz ov start acc :
  chunk_loop (S fuel) t sz ov start acc =
  if start <? zlen t then
    let '(start', appended) := chunk_step t sz ov start in
    chunk_loop fuel t sz ov start' (push acc appended)
  else Some acc.
Proof. reflexivity. Qed.

Lemma stuck_step : chunk_step stuck_text 500 50 0 = (0, Some stuck_chunk).
Proof. vm_compute. reflexivity. Qed.

Lemma stuck_loop fuel acc : chunk_loop fuel stuck_text 500 50 0 acc = None.
Proof.
  revert acc; induction fuel as [|fuel IH]; intros acc; [reflexivity|].
  rewrite chunk_loop_unfold, stuck_step.
  replace (0 <? zlen stuck_text) with true by reflexivity.
  apply IH.
Qed.

Lemma rfind_down_spec t sub lo k i :
  i - lo + 1 <= Z.of_nat k ->
  let r := rfind_down t sub lo k i in
  (r = -1 /\ forall j, lo <= j <= i -> matches_at t sub j = false) \/
  (lo <= r <= i /\ matches_at t sub r = true /\
   forall j, r < j <= i -> matches_at t sub j = false).
Proof.
  revert i; induction k as [|k IH]; intros i Hk; simpl.
  - left; split; [reflexivity|]; intros j Hj; lia.
  - destruct (i <? lo) eqn:Hlt.
    + apply Z.ltb_lt in Hlt. left; split; [reflexivity|]; intros j Hj; lia.
    + apply Z.ltb_ge in Hlt.
      destruct (matches_at t sub i) eqn:Hm.
      * right; split; [lia|]; split; [exact Hm|]; intros j Hj; lia.
      * destruct (IH (i - 1) ltac:(lia)) as [[Hr Hall]|[Hr [Hr2 Hall]]].
        -- left; split; [exact Hr|]; intros j Hj.
           destruct (Z.eq_dec j i) as [->|Hne]; [exact Hm|apply Hall; lia].
        -- right; split; [lia|]; split; [exact Hr2|]; intros j Hj.
           destruct (Z.eq_dec j i) as [->|Hne]; [exact Hm|apply Hall; lia].
Qed.

Lemma adjust_index_id i n : 0 <= i <= n -> adjust_index i n = i.
Proof.
  intros H; unfold adjust_index.
  destruct (i <? 0) eqn:E; [apply Z.ltb_lt in E; lia | lia].
Qed.

Lemma rfind_spec t sub a b :
  0 <= a <= b -> b <= zlen t ->
  let r := rfind t sub a b in
  (r = -1 /\ forall j, ~ occurs_in t sub a b j) \/
  (occurs_in t sub a b r /\ forall j, r < j -> ~ occurs_in t sub a b j).
Proof.
  intros Hab Hb; unfold rfind.
  rewrite (adjust_index_id a), (adjust_index_id b) by lia.
  destruct (rfind_down_spec t sub a (Z.to_nat (b - zlen sub - a + 1))
              (b - zlen sub) ltac:(lia)) as [[Hr Hall]|[Hr [Hm Hall]]].
  - left; split; [exact Hr|]. intros j [H1 [H2 H3]].
    rewrite Hall in H3 by lia; discriminate.
  - right; split; [unfold occurs_in; repeat split; (lia || exact Hm)|].
    intros j Hj [H1 [H2 H3]]. rewrite Hall in H3 by lia; discriminate.
Qed.

Lemma rfind_none t sub a b :
  0 <= a <= b -> b <= zlen t ->
  (forall j, ~ occurs_in t sub a b j) -> rfind t sub a b = -1.
Proof.
  intros Hab Hb Hno.
  destruct (rfind_spec t sub a b Hab Hb) as [[Hr _]|[Hocc _]];
    [exact Hr | exfalso; exact (Hno _ Hocc)].
Qed.

Lemma rfind_last t sub a b p :
  0 <= a <= b -> b <= zlen t ->
  occurs_in t sub a b p -> (forall j, p < j -> ~ occurs_in t sub a b j) ->
  rfind t sub a b = p.
Proof.
  intros Hab Hb Hp Hlast.
  destruct (rfind_spec t sub a b Hab Hb) as [[_ Hno]|[Hocc Hafter]].
  - exfalso; exact (Hno _ Hp).
  - set (r := rfind t sub a b) in *.
    destruct (Z.lt_total r p) as [Hlt|[Heq|Hgt]].
    + exfalso; exact (Hafter _ Hlt Hp).
    + exact Heq.
    + exfalso; exact (Hlast _ Hgt Hocc).
Qed.

Lemma cut_at_none t a b seps :
  0 <= a <= b -> b <= zlen t ->
  (forall sep j, In sep seps -> ~ occurs_in t sep a b j) ->
  cut_at t a b seps = b.
Proof.
  intros Hab Hb; induction seps as [|sep rest IH]; intros Hno; simpl; [reflexivity|].
  rewrite rfind_none by (auto || (intros j; apply Hno; left; reflexivity)).
  simpl. apply IH. intros s j Hs; apply Hno; right; exact Hs.
Qed.

Lemma cut_at_first t a b pre sep post p :
  0 <= a <= b -> b <= zlen t ->
  (forall s j, In s pre -> ~ occurs_in t s a b j) ->
  occurs_in t sep a b p -> (forall j, p < j -> ~ occurs_in t sep a b j) ->
  cut_at t a b (pre ++ sep :: post) = p + 1.
Proof.
  intros Hab Hb; induction pre as [|s pre IH]; intros Hno Hp Hlast; simpl.
  - rewrite (rfind_last t sep a b p) by assumption.
    destruct Hp as [Hp _]. replace (p =? -1) with false by lia. reflexivity.
  - rewrite rfind_none by (auto || (intros j; apply Hno; left; reflexivity)).
    simpl. apply IH; [|exact Hp|exact Hlast].
    intros s' j Hs'; apply Hno; right; exact Hs'.
Qed.

Lemma lstrip_cases t :
  lstrip t = [] \/ exists c r, lstrip t = c :: r /\ is_py_space c = false.
Proof.
  induction t as [|c t IH]; simpl; [left; reflexivity|].
  destruct (is_py_space c) eqn:E; [exact IH|right; eauto].
Qed.

Lemma strip_good t : strip t <> [] -> good_chunk (strip t).
Proof.
  intros Hne; split; [exact Hne|]. unfold strip in *.
  destruct (lstrip_cases (rev (lstrip t))) as [E|[c [r [E Hc]]]];
    rewrite E in *; [contradiction|].
  simpl. rewrite forallb_app. simpl. rewrite Hc. apply andb_false_r.
Qed.

Lemma chunk_step_good t sz ov start start' c :
  chunk_step t sz ov start = (start', Some c) -> good_chunk c.
Proof.
  unfold chunk_step. cbv zeta.
  destruct (strip (py_slice t start (window_end t sz start))) eqn:E;
    intros H; [discriminate|].
  injection H as _ <-. rewrite <- E. apply strip_good. rewrite E; discriminate.
Qed.

Lemma chunk_loop_good fuel t sz ov start acc l :
  Forall good_chunk acc -> chunk_loop fuel t sz ov start acc = Some l ->
  Forall good_chunk l.
Proof.
  revert start acc; induction fuel as [|fuel IH]; intros start acc Hacc H;
    [discriminate|].
  rewrite chunk_loop_unfold in H.
  destruct (start <? zlen t); [|inversion H; subst; exact Hacc].
  destruct (chunk_step t sz ov start) as [start' [c|]] eqn:Hs.
  - apply (IH start' (acc ++ [c])); [|exact H].
    apply Forall_app; split; [exact Hacc|].
    constructor; [exact (chunk_step_good _ _ _ _ _ _ Hs)|constructor].
  - exact (IH start' acc Hacc H).
Qed.

(** *** Whitespace-only input *)

Lemma forallb_firstn {A} (p : A -> bool) n l :
  forallb p l = true -> forallb p (firstn n l) = true.
Proof.
  revert l; induction n as [|n IH]; intros [|x l] H; simpl in *; auto.
  apply andb_true_iff in H as [H1 H2]. rewrite H1; simpl. auto.
Qed.

Lemma forallb_skipn {A} (p : A -> bool) n l :
  forallb p l = true -> forallb p (skipn n l) = true.
Proof.
  revert l; induction n as [|n IH]; intros [|x l] H; simpl in *; auto.
  apply andb_true_iff in H as [_ H2]. auto.
Qed.

Lemma lstrip_all_space t : forallb is_py_space t = true -> lstrip t = [].
Proof.
  induction t as [|c t IH]; simpl; [reflexivity|].
  intros H; apply andb_true_iff in H as [-> H2]. auto.
Qed.

Lemma strip_all_space t : forallb is_py_space t = true -> strip t = [].
Proof.
  intros H; unfold strip; rewrite (lstrip_all_space t H). reflexivity.
Qed.

Lemma separators_not_space sep :
  In sep separators -> forallb is_py_space sep = false.
Proof.
  simpl; intros [<-|[<-|[<-|[<-|[<-|[]]]]]]; reflexivity.
Qed.

Lemma no_occurs_in_space t sep a b j :
  forallb is_py_space t = true -> forallb is_py_space sep = false ->
  ~ occurs_in t sep a b j.
Proof.
  intros Ht Hs [_ [_ Hm]]. unfold matches_at in Hm.
  apply bool_decide_eq_true in Hm.
  rewrite <- Hm, forallb_firstn in Hs; [discriminate|].
  apply forallb_skipn, Ht.
Qed.

Lemma window_end_space t sz start :
  forallb is_py_space t = true -> 0 <= start -> 0 < sz ->
  window_end t sz start = start + sz.
Proof.
  intros Ht Hs Hsz. unfold window_end.
  destruct (start + sz <? zlen t) eqn:E; [|reflexivity].
  apply Z.ltb_lt in E. apply cut_at_none; [lia|lia|].
  intros sep j Hin. apply no_occurs_in_space; [exact Ht|].
  apply separators_not_space, Hin.
Qed.

Lemma chunk_step_space t sz ov start :
  forallb is_py_space t = true -> 0 <= start -> 0 < sz ->
  chunk_step t sz ov start =
  (if start + sz <? zlen t then start + sz - ov else zlen t, None).
Proof.
  intros Ht Hs Hsz. unfold chunk_step.
  rewrite window_end_space by assumption.
  rewrite strip_all_space; [reflexivity|].
  unfold py_slice. apply forallb_firstn, forallb_skipn, Ht.
Qed.

Lemma chunk_loop_space fuel t sz ov start :
  forallb is_py_space t = true -> 0 < sz -> 0 <= ov < sz -> 0 <= start ->
  (Z.to_nat (zlen t - start) < fuel)%nat ->
  chunk_loop fuel t sz ov start [] = Some [].
Proof.
  intros Ht Hsz Hov; revert start; induction fuel as [|fuel IH];
    intros start Hs Hf; [lia|].
  rewrite chunk_loop_unfold.
  destruct (start <? zlen t) eqn:E; [|reflexivity].
  apply Z.ltb_lt in E.
  rewrite chunk_step_space by assumption. simpl.
  destruct (start + sz <? zlen t) eqn:E2; [apply Z.ltb_lt in E2|apply Z.ltb_ge in E2];
    apply IH; lia.
Qed.

(** A successful ingestion, and a second call on its store. *)
Example ingest_then_reingest :
  let yt := sample_analyzer
              "First sentence here. Second sentence follows it. Third one ends."
              (ROk []) in
  match process_video 10 yt zero_model ∅ "https://youtu.be/abc" 30 0 with
  | Some (IngestSuccess _ _ _ 3, db1) =>
      process_video 10 yt zero_model db1 "https://youtu.be/abc" 30 0
      = Some (AlreadyExists "abc" "video_abc" 3, db1)
  | _ => False
  end.
Proof. vm_compute. reflexivity. Qed.

(** ** General facts about the pipeline *)

Lemma process_video_fresh fuel yt em db url sz ov :
  has_data db ("video_" ++ _extract_video_id url)%string = false ->
  process_video fuel yt em db url sz ov =
  process_new_video fuel yt em db url (_extract_video_id url)
    ("video_" ++ _extract_video_id url)%string sz ov.
Proof.
  unfold has_data, process_video; cbv zeta.
  destruct (db !! ("video_" ++ _extract_video_id url)%string) as [c|];
    [|reflexivity].
  intros H; rewrite H; reflexivity.
Qed.

Lemma imap_documents (g : nat -> text * vec -> stored_chunk)
  (l : list (text * vec)) :
  (forall i x, s_document (g i x) = fst x) ->
  map s_document (imap g l) = map fst l.
Proof.
  revert g; induction l as [|x l IH]; intros g Hg; simpl; [reflexivity|].
  rewrite Hg. f_equal. apply IH. intros i y; apply Hg.
Qed.

Lemma map_fst_combine_map {A B} (f : A -> B) (l : list A) :
  map fst (combine l (map f l)) = l.
Proof. induction l as [|x l IH]; simpl; [reflexivity|]. rewrite IH; reflexivity. Qed.

Lemma chunk_records_documents vid url info chunks f :
  map s_document (chunk_records vid url info chunks (map f chunks)) = chunks.
Proof.
  unfold chunk_records. rewrite imap_documents.
  - apply map_fst_combine_map.
  - intros i [doc e]; reflexivity.
Qed.

Lemma check_ollama_down be :
  ollama_imported be = false \/ ollama_list_ok be = false ->
  exists evs, _check_ollama be = (false, evs).
Proof.
  unfold _check_ollama; intros [H|H];
    [rewrite H; eauto|destruct (ollama_imported be); [rewrite H|]; eauto].
Qed.

(** * The claims *)

(** C1 (chunker termination).  The claim: for every text, [chunk_size > 0]
    and [0 <= chunk_overlap < chunk_size], the loop of [_chunk_text]
    terminates and [start] strictly progresses.  It does not: on
    [stuck_text] with the defaults 500 and 50, the sentence end at index
    49 gives the cut 50, the next [start] is [50 - 50 = 0] again, and the
    loop never stops, however much fuel it is given. *)
Theorem chunk_text_loops_on_overlapping_cut :
  fst (chunk_step stuck_text 500 50 0) = 0 /\
  forall fuel, _chunk_text fuel stuck_text 500 50 = None.
Proof.
  split.
  - rewrite stuck_step; reflexivity.
  - intros fuel.
    change (_chunk_text fuel stuck_text 500 50)
      with (chunk_loop fuel stuck_text 500 50 0 []).
    apply stuck_loop.
Qed.

(** C2 (sentence-boundary cut), counterexample.  In the window [[0, 10)]
    of [two_terminators] the pattern "! " occurs at 4, after ". " at 1,
    yet the cut is at 2: the code does not take the latest occurrence over
    the five patterns. *)
Lemma cut_is_not_latest_terminator :
  window_end two_terminators 10 0 = 2 /\
  In (lit "! ") separators /\ occurs_in two_terminators (lit "! ") 0 10 4.
Proof.
  split; [vm_compute; reflexivity|]. split; [simpl; tauto|].
  unfold occurs_in; split; [lia|]; split; [vm_compute; discriminate|].
  vm_compute; reflexivity.
Qed.

(** C2 (sentence-boundary cut), as amended.  When [0 <= start] and the
    window's right edge [start + chunk_size] is before the end of the text,
    the cut is the raw edge if none of the five patterns occurs inside the
    window; otherwise, taking the patterns in the order ". ", ".\n", "! ",
    "?\n", "? ", the first pattern that occurs in the window decides: the
    cut is just after the terminator character of its last occurrence. *)
Theorem window_end_first_pattern_in_order t chunk_size start :
  0 <= start -> 0 <= chunk_size -> start + chunk_size < zlen t ->
  ((forall sep j, In sep separators ->
     ~ occurs_in t sep start (start + chunk_size) j) ->
   window_end t chunk_size start = start + chunk_size) /\
  (forall pre sep post p,
     separators = pre ++ sep :: post ->
     (forall s j, In s pre -> ~ occurs_in t s start (start + chunk_size) j) ->
     occurs_in t sep start (start + chunk_size) p ->
     (forall j, p < j -> ~ occurs_in t sep start (start + chunk_size) j) ->
     window_end t chunk_size start = p + 1).
Proof.
  intros Hs Hsz Hlt. unfold window_end.
  replace (start + chunk_size <? zlen t) with true by lia.
  split.
  - intros Hno. apply cut_at_none; [lia|lia|exact Hno].
  - intros pre sep post p -> Hpre Hp Hlast.
    apply cut_at_first; [lia|lia|exact Hpre|exact Hp|exact Hlast].
Qed.

Lemma window_end_first_pattern_in_order_witness :
  (0 <= 0 /\ 0 <= 10 /\ 0 + 10 < zlen two_terminators) /\
  window_end two_terminators 10 0 = 1 + 1.
Proof.
  split; [split; [lia|split; [lia|vm_compute; reflexivity]]|].
  apply (proj2 (window_end_first_pattern_in_order two_terminators 10 0
                  ltac:(lia) ltac:(lia) ltac:(vm_compute; reflexivity))
           [] (lit ". ") (tail separators) 1 eq_refl).
  - intros s j [].
  - unfold occurs_in; split; [lia|]; split; [vm_compute; discriminate|].
    vm_compute; reflexivity.
  - intros j Hj [H1 [H2 H3]].
    assert (j = 2 \/ j = 3 \/ j = 4 \/ j = 5 \/ j = 6 \/ j = 7 \/ j = 8)
      as Hj' by (change (zlen (lit ". ")) with 2 in H2; lia).
    destruct Hj' as [->|[->|[->|[->|[->|[->| ->]]]]]]; vm_compute in H3;
      discriminate.
Defined.

(** C3 (idempotent ingestion).  When Chroma already holds at least one
    record in the collection of the derived video id, [process_video]
    returns "already_exists" with the existing count and leaves the store
    exactly as it was, whatever the fetchers and the chunk parameters. *)
Theorem process_video_already_exists fuel yt em db url sz ov c :
  db !! ("video_" ++ _extract_video_id url)%string = Some c ->
  (0 < count c)%nat ->
  process_video fuel yt em db url sz ov =
  Some (AlreadyExists (_extract_video_id url)
          ("video_" ++ _extract_video_id url)%string (count c), db).
Proof.
  intros Hdb Hc. unfold process_video; cbv zeta. rewrite Hdb.
  replace ((0 <? count c)%nat) with true by (symmetry; apply Nat.ltb_lt; exact Hc).
  reflexivity.
Qed.

Lemma process_video_already_exists_witness :
  let db : store := {[ "video_abc" := one_chunk_collection ]} in
  (db !! ("video_" ++ _extract_video_id "https://youtu.be/abc")%string
     = Some one_chunk_collection /\ (0 < count one_chunk_collection)%nat) /\
  process_video 0 offline_analyzer zero_model db "https://youtu.be/abc" 500 50
  = Some (AlreadyExists "abc" "video_abc" 1, db).
Proof.
  cbv zeta. split; [split; [vm_compute; reflexivity|vm_compute; lia]|].
  apply (process_video_already_exists 0 offline_analyzer zero_model _
           "https://youtu.be/abc" 500 50 one_chunk_collection);
    [vm_compute; reflexivity|vm_compute; lia].
Defined.

(** ** Helpers for the answering engine *)

Lemma insert_by_distance_length x l :
  length (insert_by_distance x l) = S (length l).
Proof.
  induction l as [|y l IH]; simpl; [reflexivity|].
  destruct (Qle_bool (snd x) (snd y)); simpl; [reflexivity|]. rewrite IH; reflexivity.
Qed.

(** The request of [answer_question] is [min(top_k, count)]: with a
    collection of [1 <= count <= top_k] records Chroma answers with exactly
    [count] of them. *)
Lemma chroma_query_clamped c q top_k :
  (1 <= count c)%nat -> Z.of_nat (count c) <= top_k ->
  exists rs, chroma_query c q (Z.min top_k (Z.of_nat (count c))) = ROk rs /\
             length rs = count c.
Proof.
  intros H1 H2. unfold chroma_query.
  replace (Z.min top_k (Z.of_nat (count c))) with (Z.of_nat (count c)) by lia.
  replace (Z.of_nat (count c) <=? 0) with false by lia.
  eexists; split; [reflexivity|].
  rewrite Nat2Z.id, length_firstn.
  assert (Hl : forall l, length (foldr insert_by_distance [] l) = length l).
  { induction l as [|x l IH]; simpl; [reflexivity|].
    rewrite insert_by_distance_length, IH; reflexivity. }
  rewrite Hl, length_map. unfold count. lia.
Qed.

Lemma answer_question_requests_min qa be db q vid temp mt c :
  db !! ("video_" ++ vid)%string = Some c ->
  exists r evs,
    answer_question qa be db q vid temp mt =
    (r, EvGetCollection ("video_" ++ vid) :: EvEmbedQuestion q ::
        EvQuery ("video_" ++ vid) (Z.min (qa_top_k qa) (Z.of_nat (count c)))
        :: evs).
Proof.
  intros Hdb. unfold answer_question; cbv zeta. rewrite Hdb.
  destruct (chroma_query _ _ _) as [[|r rs]|e]; [eauto|..|eauto].
  destruct (_check_ollama be) as [[|] evs]; simpl;
    [destruct (ollama_generate _ _ _ _ _ _); eauto|eauto].
Qed.

(** C4 (store query clamped to the collection size), failing input.  For
    an existing collection with no records and any [top_k >= 0], the
    request is [min(top_k, 0) = 0] results, which Chroma rejects; the
    exception escapes [answer_question] instead of the "no_context"
    answer. *)
Theorem answer_question_raises_on_empty_collection qa be db q vid temp mt c :
  db !! ("video_" ++ vid)%string = Some c -> count c = 0%nat ->
  0 <= qa_top_k qa ->
  answer_question qa be db q vid temp mt =
  (AnsRaises (n_results_error 0),
   [EvGetCollection ("video_" ++ vid); EvEmbedQuestion q;
    EvQuery ("video_" ++ vid) 0]).
Proof.
  intros Hdb Hc Hk. unfold answer_question; cbv zeta. rewrite Hdb.
  assert (Hn : Z.min (qa_top_k qa) (Z.of_nat (count c)) = 0) by (rewrite Hc; lia).
  rewrite Hn. reflexivity.
Qed.

Lemma answer_question_raises_on_empty_collection_witness :
  let db : store := {[ "video_abc" := sample_collection [] ]} in
  (db !! ("video_" ++ "abc")%string = Some (sample_collection []) /\
   count (sample_collection []) = 0%nat /\ 0 <= qa_top_k default_engine) /\
  answer_question default_engine no_ollama db (lit "What?") "abc" 0 500 =
  (AnsRaises (n_results_error 0),
   [EvGetCollection "video_abc"; EvEmbedQuestion (lit "What?");
    EvQuery "video_abc" 0]).
Proof.
  cbv zeta. split; [split; [vm_compute; reflexivity|split; [reflexivity|vm_compute; discriminate]]|].
  apply (answer_question_raises_on_empty_collection default_engine no_ollama _
           (lit "What?") "abc" 0 500 (sample_collection []));
    [vm_compute; reflexivity|reflexivity|vm_compute; discriminate].
Defined.

(** C5 (degradation without a generative backend).  When the collection
    exists, retrieval returns at least one chunk and Ollama is not
    importable or not reachable, the result has status "no_llm", its answer
    is the fixed warning followed by the joined labelled context blocks, and
    it carries one source per retrieved chunk, so at least one. *)
Theorem answer_question_no_llm_keeps_context qa be db q vid temp mt c rs :
  db !! ("video_" ++ vid)%string = Some c ->
  chroma_query c (embed_text (qa_embedding_model qa) q)
    (Z.min (qa_top_k qa) (Z.of_nat (count c))) = ROk rs ->
  rs <> [] ->
  ollama_imported be = false \/ ollama_list_ok be = false ->
  let r := fst (answer_question qa be db q vid temp mt) in
  r = AnsNoLLM (no_llm_prefix ++ build_context rs) (build_sources rs)
        (get_or "Unknown" (c_video_title c)) vid /\
  answer_status r = Some "no_llm" /\
  answer_sources r <> [] /\ length (answer_sources r) = length rs.
Proof.
  intros Hdb Hq Hrs Hbe. destruct (check_ollama_down be Hbe) as [evs Hchk].
  assert (Hr : fst (answer_question qa be db q vid temp mt) =
               AnsNoLLM (no_llm_prefix ++ build_context rs) (build_sources rs)
                 (get_or "Unknown" (c_video_title c)) vid).
  { unfold answer_question; cbv zeta. rewrite Hdb, Hq.
    destruct rs as [|x rs']; [contradiction|]. rewrite Hchk. reflexivity. }
  cbv zeta. rewrite Hr. split; [reflexivity|]. split; [reflexivity|].
  simpl. unfold build_sources. rewrite length_imap.
  split; [|reflexivity].
  destruct rs as [|x rs']; [contradiction|]. discriminate.
Qed.

Lemma answer_question_no_llm_keeps_context_witness :
  let db : store := {[ "video_abc" := one_chunk_collection ]} in
  let rs := [(lit "Hello.", sample_meta 0, 0%Q)] in
  (db !! ("video_" ++ "abc")%string = Some one_chunk_collection /\
   chroma_query one_chunk_collection
     (embed_text (qa_embedding_model default_engine) (lit "Hi?"))
     (Z.min (qa_top_k default_engine) (Z.of_nat (count one_chunk_collection)))
   = ROk rs /\ rs <> [] /\
   (ollama_imported no_ollama = false \/ ollama_list_ok no_ollama = false)) /\
  answer_status (fst (answer_question default_engine no_ollama db (lit "Hi?")
                        "abc" 0 500)) = Some "no_llm".
Proof.
  cbv zeta. split.
  - split; [vm_compute; reflexivity|]. split; [vm_compute; reflexivity|].
    split; [discriminate|left; reflexivity].
  - refine (proj1 (proj2 (answer_question_no_llm_keeps_context default_engine
             no_ollama _ (lit "Hi?") "abc" 0 500 one_chunk_collection
             [(lit "Hello.", sample_meta 0, 0%Q)] _ _ _ _)));
      [vm_compute; reflexivity|vm_compute; reflexivity|discriminate|left; reflexivity].
Defined.

(** C6 (unknown video).  When no collection exists for the video id,
    [answer_question] returns status "error" with the "process the video
    first" message, raises nothing, and its only collaborator call is the
    failed collection lookup: no embedding, no query, no backend call. *)
Theorem answer_question_unknown_video qa be db q vid temp mt :
  db !! ("video_" ++ vid)%string = None ->
  let r := answer_question qa be db q vid temp mt in
  answer_status (fst r) = Some "error" /\
  fst r = AnsError ("Video not found. Please process the video first. (" ++
                    missing_collection_msg ("video_" ++ vid) ++ ")")%string /\
  snd r = [EvGetCollection ("video_" ++ vid)].
Proof.
  intros Hdb. cbv zeta. unfold answer_question; cbv zeta. rewrite Hdb.
  repeat split.
Qed.

Lemma answer_question_unknown_video_witness :
  (∅ : store) !! ("video_" ++ "zzz")%string = None /\
  answer_status (fst (answer_question default_engine no_ollama (∅ : store) (lit "Why?")
                        "zzz" 0 500)) = Some "error".
Proof.
  split; [vm_compute; reflexivity|].
  refine (proj1 (answer_question_unknown_video default_engine no_ollama
                   (∅ : store) (lit "Why?") "zzz" 0 500 _)).
  vm_compute; reflexivity.
Defined.

(** C7 (source entries).  For the [i]-th retrieved chunk, whose metadata
    carries [chunk_index = idx], the [i]-th entry of [sources] has the label
    "Part (idx+1)", the relevance score [1 - distance] and as preview the
    first 100 characters followed by "..." when the chunk is longer than
    100 characters, the whole chunk otherwise. *)
Theorem answer_question_source_entry qa be db q vid temp mt c rs i chunk meta
  d idx :
  db !! ("video_" ++ vid)%string = Some c ->
  chroma_query c (embed_text (qa_embedding_model qa) q)
    (Z.min (qa_top_k qa) (Z.of_nat (count c))) = ROk rs ->
  rs !! i = Some (chunk, meta, d) ->
  m_chunk_index meta = Some idx ->
  answer_sources (fst (answer_question qa be db q vid temp mt)) !! i =
  Some {| src_chunk_index := idx;
          src_timestamp := lit "Part " ++ lit (pretty (N.of_nat (idx + 1)));
          src_text_preview :=
            if (100 <? length chunk)%nat then firstn 100 chunk ++ lit "..."
            else chunk;
          src_relevance_score := (1 - d)%Q |}.
Proof.
  intros Hdb Hq Hi Hm.
  assert (Hsrc : answer_sources (fst (answer_question qa be db q vid temp mt))
                 = build_sources rs).
  { unfold answer_question; cbv zeta. rewrite Hdb, Hq.
    destruct rs as [|x rs']; [rewrite lookup_nil in Hi; discriminate|].
    destruct (_check_ollama be) as [[|] evs]; simpl;
      [destruct (ollama_generate _ _ _ _ _ _); reflexivity|reflexivity]. }
  rewrite Hsrc. unfold build_sources. rewrite list_lookup_imap, Hi. simpl.
  unfold chunk_idx_of. rewrite Hm. reflexivity.
Qed.

Lemma answer_question_source_entry_witness :
  let db : store := {[ "video_abc" := one_chunk_collection ]} in
  let rs := [(lit "Hello.", sample_meta 0, 0%Q)] in
  (db !! ("video_" ++ "abc")%string = Some one_chunk_collection /\
   chroma_query one_chunk_collection
     (embed_text (qa_embedding_model default_engine) (lit "Hi?"))
     (Z.min (qa_top_k default_engine) (Z.of_nat (count one_chunk_collection)))
   = ROk rs /\ rs !! 0%nat = Some (lit "Hello.", sample_meta 0, 0%Q) /\
   m_chunk_index (sample_meta 0) = Some 0%nat) /\
  answer_sources (fst (answer_question default_engine no_ollama db (lit "Hi?")
                         "abc" 0 500)) !! 0%nat =
  Some {| src_chunk_index := 0; src_timestamp := lit "Part 1";
          src_text_preview := lit "Hello."; src_relevance_score := (1 - 0)%Q |}.
Proof.
  cbv zeta. split.
  - split; [vm_compute; reflexivity|]. split; [vm_compute; reflexivity|].
    split; reflexivity.
  - refine (answer_question_source_entry default_engine no_ollama _ (lit "Hi?")
              "abc" 0 500 one_chunk_collection
              [(lit "Hello.", sample_meta 0, 0%Q)] 0 (lit "Hello.")
              (sample_meta 0) 0%Q 0 _ _ _ _);
      [vm_compute; reflexivity|vm_compute; reflexivity|reflexivity|reflexivity].
Defined.

(** C8 (no blank chunks).  With [chunk_size > 0] and
    [0 <= chunk_overlap < chunk_size], an empty or whitespace-only text
    yields the empty list (the loop stops within [len(text) + 1]
    iterations); and whenever [_chunk_text] returns, each returned chunk is
    non-empty and not whitespace-only. *)
Theorem chunk_text_no_blank_chunks :
  (forall fuel t chunk_size chunk_overlap,
     forallb is_py_space t = true -> 0 < chunk_size ->
     0 <= chunk_overlap < chunk_size -> (length t < fuel)%nat ->
     _chunk_text fuel t chunk_size chunk_overlap = Some []) /\
  (forall fuel t chunk_size chunk_overlap chunks,
     _chunk_text fuel t chunk_size chunk_overlap = Some chunks ->
     Forall good_chunk chunks).
Proof.
  split.
  - intros fuel t sz ov Ht Hsz Hov Hf. destruct t as [|x t']; [reflexivity|].
    change (_chunk_text fuel (x :: t') sz ov)
      with (chunk_loop fuel (x :: t') sz ov 0 []).
    apply chunk_loop_space; try assumption; [lia|].
    unfold zlen. rewrite Z.sub_0_r, Nat2Z.id. exact Hf.
  - intros fuel t sz ov chunks. destruct t as [|x t'].
    + intros H; injection H as <-; constructor.
    + apply chunk_loop_good; constructor.
Qed.

Lemma chunk_text_no_blank_chunks_witness :
  (forallb is_py_space (lit "  ") = true /\ 0 < 500 /\ 0 <= 50 < 500 /\
   (length (lit "  ") < 3)%nat) /\
  _chunk_text 3%nat (lit "  ") 500 50 = Some [].
Proof.
  split; [split; [reflexivity|split; [lia|split; [lia|simpl; lia]]]|].
  apply (proj1 chunk_text_no_blank_chunks 3%nat (lit "  ") 500 50);
    [reflexivity|lia|lia|simpl; lia].
Defined.

(** ** Helpers for the ingestion gates *)

Lemma short_text_gate d :
  (length d < 50)%nat ->
  (match d with [] => true | _ => false end || (zlen d <? 50)) = true.
Proof.
  intros H. unfold zlen.
  replace (Z.of_nat (length d) <? 50) with true by lia. apply orb_true_r.
Qed.

Lemma long_text_gate d :
  (match d with [] => true | _ => false end || (zlen d <? 50)) = false ->
  (50 <= length d)%nat.
Proof.
  intros H. apply orb_false_iff in H as [_ H]. unfold zlen in H. lia.
Qed.

Lemma process_video_cases fuel yt em db url sz ov :
  (exists c, db !! ("video_" ++ _extract_video_id url)%string = Some c /\
             (0 < count c)%nat /\
             process_video fuel yt em db url sz ov =
             Some (AlreadyExists (_extract_video_id url)
                     ("video_" ++ _extract_video_id url)%string (count c), db))
  \/
  (has_data db ("video_" ++ _extract_video_id url)%string = false /\
   process_video fuel yt em db url sz ov =
   process_new_video fuel yt em db url (_extract_video_id url)
     ("video_" ++ _extract_video_id url)%string sz ov).
Proof.
  unfold has_data, process_video; cbv zeta.
  destruct (db !! ("video_" ++ _extract_video_id url)%string) as [c|];
    [|right; split; reflexivity].
  destruct (0 <? count c)%nat eqn:Hc.
  - left; exists c; split; [reflexivity|]; split; [apply Nat.ltb_lt, Hc|reflexivity].
  - right; split; reflexivity.
Qed.

(** What a run of [process_new_video] that chunks the text has read. *)
Lemma process_new_video_chunks fuel yt em db url vid name sz ov r :
  process_new_video fuel yt em db url vid name sz ov = r ->
  (r = None \/ exists v n i k db', r = Some (IngestSuccess v n i k, db')) ->
  exists info d tr, get_video_info yt url = ROk info /\
    get_transcript yt url = ROk tr /\
    vi_description info = Some d /\ (50 <= length d)%nat.
Proof.
  unfold process_new_video. intros Hr Hcase.
  destruct (get_video_info yt url) as [info|e];
    [|subst r; destruct Hcase as [H|(?&?&?&?&?&H)]; discriminate].
  destruct (get_transcript yt url) as [tr|e];
    [|subst r; destruct Hcase as [H|(?&?&?&?&?&H)]; discriminate].
  destruct (vi_description info) as [d|] eqn:Hd;
    [|subst r; destruct Hcase as [H|(?&?&?&?&?&H)]; discriminate].
  destruct (match d with [] => true | _ => false end || (zlen d <? 50)) eqn:Hg;
    [subst r; destruct Hcase as [H|(?&?&?&?&?&H)]; discriminate|].
  exists info, d, tr. repeat split; try reflexivity; [exact Hd|].
  apply long_text_gate, Hg.
Qed.

Lemma process_new_video_success fuel yt em db url vid name sz ov v n info k db' :
  process_new_video fuel yt em db url vid name sz ov =
    Some (IngestSuccess v n info k, db') ->
  (forall c, db !! name = Some c -> c_items c = []) ->
  exists d chunks coll,
    get_video_info yt url = ROk info /\ vi_description info = Some d /\
    _chunk_text fuel d sz ov = Some chunks /\ n = name /\
    db' !! name = Some coll /\ map s_document (c_items coll) = chunks.
Proof.
  unfold process_new_video. intros H Hempty.
  destruct (get_video_info yt url) as [info0|e]; [|discriminate].
  destruct (get_transcript yt url) as [tr|e]; [|discriminate].
  destruct (vi_description info0) as [d|] eqn:Hd; [|discriminate].
  destruct (match d with [] => true | _ => false end || (zlen d <? 50));
    [discriminate|].
  destruct (_chunk_text fuel d sz ov) as [[|ch chs]|] eqn:Hch; try discriminate.
  injection H as <- <- <- <- <-.
  eexists d, (ch :: chs), _. split; [reflexivity|]. split; [exact Hd|].
  split; [exact Hch|]. split; [reflexivity|]. split; [apply lookup_insert_eq|].
  cbn [c_items collection_add]. rewrite map_app. unfold embed_batch.
  change (encode em ch :: map (encode em) chs) with (map (encode em) (ch :: chs)).
  rewrite chunk_records_documents.
  unfold get_or_create_collection.
  destruct (db !! name) as [c|] eqn:Hc; [rewrite (Hempty c eq_refl)|]; reflexivity.
Qed.

(** C9 (short descriptions).  When nothing is stored yet under the derived
    video id and the metadata fetch succeeds, a description (or its
    absence) of fewer than 50 characters makes [process_video] fail with
    status "error" and leave the store unchanged, with the reason "No
    transcript or description available" once the transcript fetch
    succeeds; and whenever [process_video] reaches the chunking (its loop
    diverges or the video is stored) the description has at least 50
    characters. *)
Theorem process_video_short_description :
  (forall fuel yt em db url sz ov info,
     has_data db ("video_" ++ _extract_video_id url)%string = false ->
     get_video_info yt url = ROk info ->
     (length (description_of info) < 50)%nat ->
     (exists e, process_video fuel yt em db url sz ov = Some (IngestError e, db))
     /\
     (forall tr, get_transcript yt url = ROk tr ->
        process_video fuel yt em db url sz ov =
        Some (IngestError no_text_error, db))) /\
  (forall fuel yt em db url sz ov r,
     process_video fuel yt em db url sz ov = r ->
     (r = None \/ exists v n i k db', r = Some (IngestSuccess v n i k, db')) ->
     exists info d, get_video_info yt url = ROk info /\
       vi_description info = Some d /\ (50 <= length d)%nat).
Proof.
  split.
  - intros fuel yt em db url sz ov info Hfresh Hinfo Hlen.
    rewrite process_video_fresh by exact Hfresh.
    unfold process_new_video. rewrite Hinfo.
    unfold description_of in Hlen.
    split.
    + destruct (get_transcript yt url) as [tr|e]; [|exists e; reflexivity].
      exists no_text_error. cbv zeta.
      rewrite short_text_gate by exact Hlen. reflexivity.
    + intros tr Htr. rewrite Htr. cbv zeta.
      rewrite short_text_gate by exact Hlen. reflexivity.
  - intros fuel yt em db url sz ov r Hr Hcase.
    destruct (process_video_cases fuel yt em db url sz ov)
      as [(c & _ & _ & Hae)|(_ & Hnew)].
    + rewrite Hae in Hr; subst r.
      destruct Hcase as [H|(?&?&?&?&?&H)]; discriminate.
    + rewrite Hnew in Hr.
      destruct (process_new_video_chunks _ _ _ _ _ _ _ _ _ _ Hr Hcase)
        as (info & d & tr & Hi & _ & Hd & Hl).
      exists info, d; auto.
Qed.

Lemma process_video_short_description_witness :
  (has_data ∅ ("video_" ++ _extract_video_id "https://youtu.be/abc")%string
     = false /\
   get_video_info (sample_analyzer "Too short." (ROk [])) "https://youtu.be/abc"
     = ROk (sample_info "Too short.") /\
   (length (description_of (sample_info "Too short.")) < 50)%nat) /\
  process_video 0 (sample_analyzer "Too short." (ROk [])) zero_model ∅
    "https://youtu.be/abc" 500 50 = Some (IngestError no_text_error, ∅).
Proof.
  split; [split; [vm_compute; reflexivity|split; [reflexivity|vm_compute; lia]]|].
  refine (proj2 (proj1 process_video_short_description 0%nat
                   (sample_analyzer "Too short." (ROk [])) zero_model ∅
                   "https://youtu.be/abc" 500 50 (sample_info "Too short.")
                   _ _ _) [] _);
    [vm_compute; reflexivity|reflexivity|vm_compute; lia|reflexivity].
Defined.

(** C10 (transcript fetch as a gate only).  When nothing is stored yet and
    the metadata fetch succeeds, a failed transcript fetch makes
    [process_video] return status "error" with that fetch's message and
    leave the store unchanged; the transcript text itself never matters
    (two fetchers that agree on the metadata and both return some
    transcript give the same run); and after a successful run the stored
    documents of the collection are exactly the chunks of the description. *)
Theorem process_video_transcript_unused :
  (forall fuel yt em db url sz ov info e,
     has_data db ("video_" ++ _extract_video_id url)%string = false ->
     get_video_info yt url = ROk info -> get_transcript yt url = RErr e ->
     process_video fuel yt em db url sz ov = Some (IngestError e, db)) /\
  (forall fuel yt1 yt2 em db url sz ov t1 t2,
     get_video_info yt1 url = get_video_info yt2 url ->
     get_transcript yt1 url = ROk t1 -> get_transcript yt2 url = ROk t2 ->
     process_video fuel yt1 em db url sz ov =
     process_video fuel yt2 em db url sz ov) /\
  (forall fuel yt em db url sz ov v n info k db',
     process_video fuel yt em db url sz ov =
       Some (IngestSuccess v n info k, db') ->
     exists d chunks coll,
       get_video_info yt url = ROk info /\ vi_description info = Some d /\
       _chunk_text fuel d sz ov = Some chunks /\
       db' !! n = Some coll /\ map s_document (c_items coll) = chunks).
Proof.
  split; [|split].
  - intros fuel yt em db url sz ov info e Hfresh Hinfo Htr.
    rewrite process_video_fresh by exact Hfresh.
    unfold process_new_video. rewrite Hinfo, Htr. reflexivity.
  - intros fuel yt1 yt2 em db url sz ov t1 t2 Hinfo Ht1 Ht2.
    unfold process_video; cbv zeta.
    destruct (db !! ("video_" ++ _extract_video_id url)%string) as [c|];
      [destruct (0 <? count c)%nat; [reflexivity|]|];
      unfold process_new_video; rewrite Hinfo, Ht1, Ht2; reflexivity.
  - intros fuel yt em db url sz ov v n info k db' H.
    destruct (process_video_cases fuel yt em db url sz ov)
      as [(c & _ & _ & Hae)|(Hfresh & Hnew)]; [rewrite Hae in H; discriminate|].
    rewrite Hnew in H.
    destruct (process_new_video_success _ _ _ _ _ _ _ _ _ _ _ _ _ _ H)
      as (d & chunks & coll & Hi & Hd & Hch & -> & Hl & Hdocs).
    + intros c Hc. unfold has_data in Hfresh. rewrite Hc in Hfresh.
      apply Nat.ltb_ge in Hfresh. unfold count in Hfresh.
      apply length_zero_iff_nil. lia.
    + exists d, chunks, coll. auto.
Qed.

Lemma process_video_transcript_unused_witness :
  (has_data ∅ ("video_" ++ _extract_video_id "https://youtu.be/abc")%string
     = false /\
   get_video_info (sample_analyzer "d" (RErr "no captions")) "https://youtu.be/abc"
     = ROk (sample_info "d") /\
   get_transcript (sample_analyzer "d" (RErr "no captions")) "https://youtu.be/abc"
     = RErr "no captions") /\
  process_video 0 (sample_analyzer "d" (RErr "no captions")) zero_model ∅
    "https://youtu.be/abc" 500 50 = Some (IngestError "no captions", ∅).
Proof.
  split; [split; [vm_compute; reflexivity|split; reflexivity]|].
  apply (proj1 process_video_transcript_unused 0%nat
           (sample_analyzer "d" (RErr "no captions")) zero_model ∅
           "https://youtu.be/abc" 500 50 (sample_info "d") "no captions");
    [vm_compute; reflexivity|reflexivity|reflexivity].
Defined.

(** * Further properties of the code *)

(** ** Chunker: chunks are pieces of the text; overlap 0 terminates *)

Lemma lstrip_suffix x : exists k, x = k ++ lstrip x.
Proof.
  induction x as [|c x IH]; simpl; [exists []; reflexivity|].
  destruct (is_py_space c); [destruct IH as [k Hk]; exists (c :: k); simpl; congruence|].
  exists []; reflexivity.
Qed.

Lemma strip_infix x : infix (strip x) x.
Proof.
  unfold strip. destruct (lstrip_suffix x) as [k Hk].
  destruct (lstrip_suffix (rev (lstrip x))) as [k' Hk'].
  exists k, (rev k').
  assert (Hy : lstrip x = rev (lstrip (rev (lstrip x))) ++ rev k').
  { rewrite <- rev_app_distr, <- Hk', rev_involutive; reflexivity. }
  rewrite Hk at 1. rewrite Hy at 1. reflexivity.
Qed.

Lemma py_slice_infix t a b : infix (py_slice t a b) t.
Proof.
  unfold py_slice. set (m := Z.to_nat _). set (n := Z.to_nat _).
  exists (firstn n t), (skipn m (skipn n t)).
  rewrite firstn_skipn, firstn_skipn. reflexivity.
Qed.

Lemma chunk_step_infix t sz ov start start' c :
  chunk_step t sz ov start = (start', Some c) -> infix c t.
Proof.
  unfold chunk_step; cbv zeta.
  destruct (strip (py_slice t start (window_end t sz start))) eqn:E;
    intros H; [discriminate|].
  injection H as _ <-. rewrite <- E.
  destruct (strip_infix (py_slice t start (window_end t sz start))) as [p1 [p2 Hp]].
  destruct (py_slice_infix t start (window_end t sz start)) as [q1 [q2 Hq]].
  exists (q1 ++ p1), (p2 ++ q2).
  set (P := py_slice t start (window_end t sz start)) in *.
  rewrite Hq at 1. rewrite Hp at 1. rewrite <- !app_assoc. reflexivity.
Qed.

Lemma chunk_loop_infix fuel t sz ov start acc l :
  Forall (fun c => infix c t) acc -> chunk_loop fuel t sz ov start acc = Some l ->
  Forall (fun c => infix c t) l.
Proof.
  revert start acc; induction fuel as [|fuel IH]; intros start acc Hacc H;
    [discriminate|].
  rewrite chunk_loop_unfold in H.
  destruct (start <? zlen t); [|inversion H; subst; exact Hacc].
  destruct (chunk_step t sz ov start) as [start' [c|]] eqn:Hs.
  - apply (IH start' (acc ++ [c])); [|exact H].
    apply Forall_app; split; [exact Hacc|].
    constructor; [exact (chunk_step_infix _ _ _ _ _ _ Hs)|constructor].
  - exact (IH start' acc Hacc H).
Qed.

(** X: every chunk [_chunk_text] returns occurs verbatim, as one contiguous
    piece, in the input text. *)
Theorem chunk_text_chunks_are_substrings fuel t chunk_size chunk_overlap chunks :
  _chunk_text fuel t chunk_size chunk_overlap = Some chunks ->
  Forall (fun c => infix c t) chunks.
Proof.
  destruct t as [|x t'].
  - intros H; injection H as <-; constructor.
  - apply chunk_loop_infix; constructor.
Qed.

Lemma chunk_text_chunks_are_substrings_witness :
  exists chunks, _chunk_text 100 (lit long_desc) 20 0 = Some chunks /\
    Forall (fun c => infix c (lit long_desc)) chunks.
Proof.
  destruct (_chunk_text 100 (lit long_desc) 20 0) as [chunks|] eqn:Hrun;
    [|vm_compute in Hrun; discriminate].
  exists chunks. split; [reflexivity|].
  exact (chunk_text_chunks_are_substrings 100%nat _ _ _ _ Hrun).
Defined.

Lemma separators_nonempty : Forall (fun s => zlen s >= 1) separators.
Proof. repeat constructor; vm_compute; discriminate. Qed.

Lemma cut_at_range t a b seps :
  0 <= a <= b -> b <= zlen t -> Forall (fun s => zlen s >= 1) seps ->
  cut_at t a b seps = b \/ (a < cut_at t a b seps <= b).
Proof.
  intros Hab Hb; induction seps as [|sep rest IH]; intros Hne; simpl; [left; reflexivity|].
  inversion Hne as [|? ? Hsep Hrest]; subst.
  destruct (rfind_spec t sep a b Hab Hb) as [[Hr _]|[[H1 [H2 _]] _]].
  - rewrite Hr. simpl. apply IH, Hrest.
  - replace (rfind t sep a b =? -1) with false by lia. simpl. right. lia.
Qed.

Lemma window_end_range t sz start :
  0 <= start -> 0 < sz ->
  start < window_end t sz start <= start + sz.
Proof.
  intros Hs Hsz. unfold window_end.
  destruct (start + sz <? zlen t) eqn:E; [|lia].
  apply Z.ltb_lt in E.
  destruct (cut_at_range t start (start + sz) separators ltac:(lia) ltac:(lia)
              separators_nonempty) as [->|H]; lia.
Qed.

Lemma py_slice_length t a b :
  0 <= a <= zlen t -> a <= b ->
  Z.of_nat (length (py_slice t a b)) <= b - a.
Proof.
  intros Ha Hab. unfold py_slice.
  rewrite (adjust_index_id a) by lia. rewrite length_firstn.
  unfold adjust_index. destruct (b <? 0) eqn:E; [apply Z.ltb_lt in E; lia|].
  lia.
Qed.

Lemma infix_length {A} (x y : list A) : infix x y -> (length x <= length y)%nat.
Proof. intros [k1 [k2 ->]]. rewrite !length_app. lia. Qed.

Lemma chunk_step_no_overlap t sz start :
  0 <= start < zlen t -> 0 < sz ->
  let '(start', appended) := chunk_step t sz 0 start in
  start < start' <= zlen t /\
  (forall c, appended = Some c -> zlen c <= sz).
Proof.
  intros Hs Hsz. pose proof (window_end_range t sz start ltac:(lia) Hsz) as Hw.
  unfold chunk_step; cbv zeta. split.
  - destruct (window_end t sz start <? zlen t) eqn:E;
      [apply Z.ltb_lt in E|apply Z.ltb_ge in E]; lia.
  - intros c Hc.
    destruct (strip (py_slice t start (window_end t sz start))) eqn:E;
      [discriminate|]. injection Hc as <-. rewrite <- E.
    pose proof (infix_length _ _ (strip_infix (py_slice t start (window_end t sz start)))).
    pose proof (py_slice_length t start (window_end t sz start) ltac:(lia) ltac:(lia)).
    unfold zlen. lia.
Qed.

Lemma chunk_loop_no_overlap fuel t sz start acc :
  0 < sz -> 0 <= start -> (Z.to_nat (zlen t - start) < fuel)%nat ->
  Forall (fun c => zlen c <= sz) acc ->
  exists l, chunk_loop fuel t sz 0 start acc = Some l /\
            Forall (fun c => zlen c <= sz) l.
Proof.
  intros Hsz; revert start acc; induction fuel as [|fuel IH];
    intros start acc Hs Hf Hacc; [lia|].
  rewrite chunk_loop_unfold.
  destruct (start <? zlen t) eqn:E; [|eauto].
  apply Z.ltb_lt in E.
  pose proof (chunk_step_no_overlap t sz start ltac:(lia) Hsz) as Hst.
  destruct (chunk_step t sz 0 start) as [start' app] eqn:Hs'.
  destruct Hst as [Hlt Hlen].
  apply IH; [lia|lia|].
  destruct app as [c|]; simpl; [|exact Hacc].
  apply Forall_app; split; [exact Hacc|constructor; [apply Hlen; reflexivity|constructor]].
Qed.

(** X: with [chunk_overlap = 0] and [chunk_size > 0], [_chunk_text] stops
    within [len(text) + 1] iterations, and every chunk has at most
    [chunk_size] characters. *)
Theorem chunk_text_no_overlap_terminates fuel t chunk_size :
  0 < chunk_size -> (length t < fuel)%nat ->
  exists chunks, _chunk_text fuel t chunk_size 0 = Some chunks /\
                 Forall (fun c => zlen c <= chunk_size) chunks.
Proof.
  intros Hsz Hf. destruct t as [|x t']; [exists []; split; [reflexivity|constructor]|].
  change (_chunk_text fuel (x :: t') chunk_size 0)
    with (chunk_loop fuel (x :: t') chunk_size 0 0 []).
  apply chunk_loop_no_overlap; [exact Hsz|lia| |constructor].
  unfold zlen. rewrite Z.sub_0_r, Nat2Z.id. exact Hf.
Qed.

Lemma chunk_text_no_overlap_terminates_witness :
  (0 < 500 /\ (length stuck_text < 652)%nat) /\
  exists chunks, _chunk_text 652 stuck_text 500 0 = Some chunks /\
                 Forall (fun c => zlen c <= 500) chunks.
Proof.
  split; [split; [lia|vm_compute; lia]|].
  apply (chunk_text_no_overlap_terminates 652%nat stuck_text 500);
    [lia|vm_compute; lia].
Defined.

(** ** [process_video] and the store *)

(** Every outcome of [process_new_video]: the store is left alone, or the
    run chunked the description and stored the records under [name]. *)
Lemma process_new_video_store fuel yt em db url vid name sz ov r db' :
  process_new_video fuel yt em db url vid name sz ov = Some (r, db') ->
  (db' = db /\ ingest_status r <> "success") \/
  exists info d chunks,
    r = IngestSuccess vid name info (length chunks) /\
    get_video_info yt url = ROk info /\ vi_description info = Some d /\
    _chunk_text fuel d sz ov = Some chunks /\ chunks <> [] /\
    db' = <[name := collection_add
                      (get_or_create_collection db name vid
                         (get_or "Unknown" (vi_title info))
                         (get_or "Unknown" (vi_channel info)))
                      (chunk_records vid url info chunks
                         (embed_batch em chunks))]> db.
Proof.
  unfold process_new_video. intros H.
  destruct (get_video_info yt url) as [info|e];
    [|injection H as <- <-; left; split; [reflexivity|discriminate]].
  destruct (get_transcript yt url) as [tr|e];
    [|injection H as <- <-; left; split; [reflexivity|discriminate]].
  destruct (vi_description info) as [d|] eqn:Hd;
    [|cbn in H; injection H as <- <-; left; split; [reflexivity|discriminate]].
  destruct (match d with [] => true | _ => false end || (zlen d <? 50));
    [injection H as <- <-; left; split; [reflexivity|discriminate]|].
  destruct (_chunk_text fuel d sz ov) as [[|ch chs]|] eqn:Hch;
    [injection H as <- <-; left; split; [reflexivity|discriminate]| |discriminate].
  injection H as <- <-. right.
  exists info, d, (ch :: chs). repeat split; try assumption; discriminate.
Qed.

Lemma has_data_false_items db name vid title channel :
  has_data db name = false ->
  c_items (get_or_create_collection db name vid title channel) = [].
Proof.
  unfold has_data, get_or_create_collection, count.
  destruct (db !! name) as [c|]; [|reflexivity].
  intros H. apply Nat.ltb_ge in H. destruct (c_items c); [reflexivity|simpl in H; lia].
Qed.

Lemma length_combine_map {A B} (f : A -> B) (l : list A) :
  length (combine l (map f l)) = length l.
Proof. induction l as [|x l IH]; simpl; [reflexivity|]. rewrite IH; reflexivity. Qed.

Lemma lookup_combine_map {A B} (f : A -> B) (l : list A) i x :
  l !! i = Some x -> combine l (map f l) !! i = Some (x, f x).
Proof.
  revert i; induction l as [|y l IH]; intros [|i] H; simpl in *;
    [discriminate|discriminate|injection H as ->; reflexivity|apply IH, H].
Qed.

(** A successful [process_video]: the names it reports, and the one
    collection it stores, holding exactly the new records. *)
Lemma process_video_success_store fuel yt em db url sz ov v n info k db' :
  process_video fuel yt em db url sz ov = Some (IngestSuccess v n info k, db') ->
  v = _extract_video_id url /\ n = ("video_" ++ v)%string /\
  exists d chunks coll,
    vi_description info = Some d /\ _chunk_text fuel d sz ov = Some chunks /\
    chunks <> [] /\ k = length chunks /\ count coll = k /\
    db' = <[n := coll]> db /\
    c_items coll = chunk_records v url info chunks (embed_batch em chunks).
Proof.
  intros H.
  destruct (process_video_cases fuel yt em db url sz ov)
    as [(c & _ & _ & Hrun)|(Hfresh & Hrun)]; rewrite Hrun in H; [discriminate|].
  apply process_new_video_store in H.
  destruct H as [[_ Hs]|(info' & d & chunks & Hr & _ & Hd & Hch & Hne & Hdb)];
    [exfalso; apply Hs; reflexivity|].
  injection Hr as Hv Hn Hi Hk. subst v n info' k.
  split; [reflexivity|]. split; [reflexivity|].
  eexists d, chunks, _. split; [exact Hd|]. split; [exact Hch|].
  split; [exact Hne|]. split; [reflexivity|]. split; [|split; [exact Hdb|]].
  - unfold count. cbn [c_items collection_add].
    rewrite (has_data_false_items _ _ _ _ _ Hfresh). simpl.
    unfold chunk_records, embed_batch. rewrite length_imap. apply length_combine_map.
  - cbn [c_items collection_add]. rewrite (has_data_false_items _ _ _ _ _ Hfresh).
    reflexivity.
Qed.

Lemma lit_app s1 s2 : lit (s1 ++ s2) = lit s1 ++ lit s2.
Proof. induction s1 as [|c s1 IH]; simpl; [reflexivity|]. unfold lit in *; rewrite IH; reflexivity. Qed.

Lemma is_prefix_app p s : is_prefix p (p ++ s) = true.
Proof.
  induction p as [|c p IH]; simpl; [reflexivity|].
  rewrite bool_decide_eq_true_2 by reflexivity. exact IH.
Qed.

Lemma is_prefix_spec p s : is_prefix p s = true -> exists k, s = p ++ k.
Proof.
  revert s; induction p as [|c p IH]; intros [|d s] H; simpl in H;
    try discriminate; [exists []; reflexivity|exists (d :: s); reflexivity|].
  apply andb_prop in H as [Hc Hp]. apply bool_decide_eq_true_1 in Hc. subst d.
  destruct (IH s Hp) as [k ->]. exists k; reflexivity.
Qed.

Lemma replace_go_absent sub rep s :
  ~ infix sub s -> replace_go sub rep 0 s = s.
Proof.
  induction s as [|c s IH]; intros Hno; simpl; [reflexivity|].
  destruct (is_prefix sub (c :: s)) eqn:Hp.
  - exfalso. apply Hno. destruct (is_prefix_spec _ _ Hp) as [k Hk].
    exists [], k. exact Hk.
  - f_equal. apply IH. intros (k1 & k2 & Hk). apply Hno.
    exists (c :: k1), k2. rewrite Hk. reflexivity.
Qed.

Lemma omap_cons {A B} (f : A -> option B) x l :
  omap f (x :: l) = match f x with Some y => y :: omap f l | None => omap f l end.
Proof. reflexivity. Qed.

Lemma occurs_b_infix sub s : infix sub s -> occurs_b sub s = true.
Proof.
  intros (k1 & k2 & ->). induction k1 as [|c k1 IH]; simpl.
  - destruct (sub ++ k2) as [|d r] eqn:E; simpl; rewrite <- E, is_prefix_app;
      reflexivity.
  - rewrite IH. apply orb_true_r.
Qed.

(** The id [list_processed_videos] shows for the collection
    ["video_" + video_id]. *)
Lemma listed_id_of_name vid :
  ~ infix (lit "video_") (lit vid) ->
  string_of_list_ascii (py_replace (lit "video_") [] (lit ("video_" ++ vid)))
  = vid.
Proof.
  intros Hno. rewrite lit_app. unfold py_replace. cbn.
  rewrite replace_go_absent by exact Hno.
  apply string_of_list_ascii_of_string.
Qed.

(** X: [process_video] changes the store only when it reports success, and
    then only the collection ["video_" + video_id]: every other collection
    is left as it was. *)
Theorem process_video_only_own_collection fuel yt em db video_url chunk_size
  chunk_overlap r db' :
  process_video fuel yt em db video_url chunk_size chunk_overlap = Some (r, db') ->
  (ingest_status r <> "success" -> db' = db) /\
  (forall name, name <> ("video_" ++ _extract_video_id video_url)%string ->
                db' !! name = db !! name).
Proof.
  intros H.
  destruct (process_video_cases fuel yt em db video_url chunk_size chunk_overlap)
    as [(c & _ & _ & Hrun)|(_ & Hrun)]; rewrite Hrun in H;
    [injection H as <- <-; split; [reflexivity|reflexivity]|].
  apply process_new_video_store in H.
  destruct H as [[-> _]|(info & d & chunks & -> & _ & _ & _ & _ & ->)];
    [split; reflexivity|].
  split; [intros Hs; exfalso; apply Hs; reflexivity|].
  intros name Hn. apply lookup_insert_ne. congruence.
Qed.

Lemma process_video_only_own_collection_witness :
  exists r db',
    process_video 10 (sample_analyzer long_desc (ROk [])) zero_model other_store
      sample_url 500 50 = Some (r, db') /\
    (ingest_status r <> "success" -> db' = other_store) /\
    (forall name, name <> ("video_" ++ _extract_video_id sample_url)%string ->
                  db' !! name = other_store !! name).
Proof.
  assert (Htag : success_id (process_video 10 (sample_analyzer long_desc (ROk []))
                   zero_model other_store sample_url 500 50) = Some "abc123XYZ_-")
    by (vm_compute; reflexivity).
  revert Htag.
  destruct (process_video 10 (sample_analyzer long_desc (ROk [])) zero_model
              other_store sample_url 500 50) as [[r db']|] eqn:Hrun;
    intros Htag; [|discriminate Htag].
  exists r, db'. split; [reflexivity|].
  exact (process_video_only_own_collection 10%nat _ _ _ _ _ _ r db' Hrun).
Defined.

(** X: after a successful [process_video], the collection it names holds
    exactly [chunk_count] records, and the [i]-th one has the id
    ["chunk_" + str(i)], the embedding of its own document, the video id,
    [chunk_index = i] and [total_chunks = chunk_count]. *)
Theorem process_video_stored_records fuel yt em db video_url chunk_size
  chunk_overlap v n info k db' :
  process_video fuel yt em db video_url chunk_size chunk_overlap =
    Some (IngestSuccess v n info k, db') ->
  exists coll, db' !! n = Some coll /\ count coll = k /\
    forall i, (i < k)%nat -> exists s,
      c_items coll !! i = Some s /\
      s_id s = ("chunk_" ++ pretty (N.of_nat i))%string /\
      s_embedding s = encode em (s_document s) /\
      m_video_id (s_metadata s) = v /\
      m_chunk_index (s_metadata s) = Some i /\
      m_total_chunks (s_metadata s) = k.
Proof.
  intros H.
  destruct (process_video_success_store _ _ _ _ _ _ _ _ _ _ _ _ H)
    as (_ & _ & d & chunks & coll & _ & _ & _ & Hk & Hcount & Hdb & Hitems).
  exists coll. split; [rewrite Hdb; apply lookup_insert_eq|].
  split; [exact Hcount|]. intros i Hi.
  destruct (lookup_lt_is_Some_2 chunks i ltac:(lia)) as [x Hx].
  rewrite Hitems. unfold chunk_records, embed_batch.
  rewrite list_lookup_imap, (lookup_combine_map (encode em) chunks i x Hx).
  eexists. split; [reflexivity|]. simpl. repeat split; congruence.
Qed.

Lemma process_video_stored_records_witness :
  exists v n info k db',
    process_video 10 (sample_analyzer long_desc (ROk [])) zero_model other_store
      sample_url 500 50 = Some (IngestSuccess v n info k, db') /\
    exists coll, db' !! n = Some coll /\ count coll = k /\
      forall i, (i < k)%nat -> exists s,
        c_items coll !! i = Some s /\
        s_id s = ("chunk_" ++ pretty (N.of_nat i))%string /\
        s_embedding s = encode zero_model (s_document s) /\
        m_video_id (s_metadata s) = v /\
        m_chunk_index (s_metadata s) = Some i /\
        m_total_chunks (s_metadata s) = k.
Proof.
  assert (Htag : success_id (process_video 10 (sample_analyzer long_desc (ROk []))
                   zero_model other_store sample_url 500 50) = Some "abc123XYZ_-")
    by (vm_compute; reflexivity).
  revert Htag.
  destruct (process_video 10 (sample_analyzer long_desc (ROk [])) zero_model
              other_store sample_url 500 50)
    as [[[v n info k| |] db']|] eqn:Hrun; intros Htag; try discriminate Htag.
  exists v, n, info, k, db'. split; [reflexivity|].
  exact (process_video_stored_records 10%nat _ _ _ _ _ _ v n info k db' Hrun).
Defined.

(** X: processing the same URL again after a success fetches nothing and
    changes nothing: whatever the fetcher, the embedding model or the
    chunking parameters, the second call answers [already_exists] with the
    same id, collection name and chunk count, and the same store. *)
Theorem process_video_twice fuel yt em db video_url chunk_size chunk_overlap
  v n info k db' fuel2 yt2 em2 chunk_size2 chunk_overlap2 :
  process_video fuel yt em db video_url chunk_size chunk_overlap =
    Some (IngestSuccess v n info k, db') ->
  process_video fuel2 yt2 em2 db' video_url chunk_size2 chunk_overlap2 =
    Some (AlreadyExists v n k, db').
Proof.
  intros H.
  destruct (process_video_success_store _ _ _ _ _ _ _ _ _ _ _ _ H)
    as (Hv & Hn & d & chunks & coll & _ & _ & Hne & Hk & Hcount & Hdb & _).
  unfold process_video; cbv zeta. rewrite <- Hv, <- Hn, Hdb, lookup_insert_eq.
  rewrite Hcount. destruct chunks as [|ch chs]; [contradiction|].
  subst k. reflexivity.
Qed.

Lemma process_video_twice_witness :
  exists v n info k db',
    process_video 10 (sample_analyzer long_desc (ROk [])) zero_model ∅
      sample_url 500 50 = Some (IngestSuccess v n info k, db') /\
    process_video 0 offline_analyzer zero_model db' sample_url 100 0 =
      Some (AlreadyExists v n k, db').
Proof.
  assert (Htag : success_id (process_video 10 (sample_analyzer long_desc (ROk []))
                   zero_model ∅ sample_url 500 50) = Some "abc123XYZ_-")
    by (vm_compute; reflexivity).
  revert Htag.
  destruct (process_video 10 (sample_analyzer long_desc (ROk [])) zero_model
              ∅ sample_url 500 50)
    as [[[v n info k| |] db']|] eqn:Hrun; intros Htag; try discriminate Htag.
  exists v, n, info, k, db'. split; [reflexivity|].
  exact (process_video_twice 10%nat _ _ _ _ _ _ v n info k db' 0%nat
           offline_analyzer zero_model 100 0 Hrun).
Defined.

(** ** [delete_video] *)


(** X: once [delete_video] has run for a video id, [process_video] on a URL
    with that id never stops at [already_exists]: it goes on to fetch,
    chunk and store the video again. *)
Theorem process_video_after_delete fuel yt em db video_url chunk_size
  chunk_overlap :
  let vid := _extract_video_id video_url in
  let db' := snd (delete_video db vid) in
  process_video fuel yt em db' video_url chunk_size chunk_overlap =
  process_new_video fuel yt em db' video_url vid ("video_" ++ vid)%string
    chunk_size chunk_overlap.
Proof.
  cbv zeta. unfold process_video at 1; cbv zeta.
  unfold delete_video; cbv zeta.
  destruct (db !! ("video_" ++ _extract_video_id video_url)%string) eqn:Hc;
    simpl; [rewrite lookup_delete_eq|rewrite Hc]; reflexivity.
Qed.

(** ** Listing processed videos *)


(** X: after a successful [process_video] of a video whose id does not
    itself contain ["video_"], [list_processed_videos] shows that video
    under its id and collection name, with the reported chunk count. *)
Theorem process_video_then_listed fuel yt em db video_url chunk_size
  chunk_overlap v n info k db' :
  process_video fuel yt em db video_url chunk_size chunk_overlap =
    Some (IngestSuccess v n info k, db') ->
  ~ infix (lit "video_") (lit v) ->
  exists p, In p (list_processed_videos db') /\ pv_video_id p = v /\
            pv_collection_name p = n /\ pv_chunk_count p = k.
Proof.
  intros H Hno.
  destruct (process_video_success_store _ _ _ _ _ _ _ _ _ _ _ _ H)
    as (_ & Hn & d & chunks & coll & _ & _ & _ & _ & Hcount & Hdb & _).
  subst n. unfold list_processed_videos, list_collections.
  eexists. rewrite <- list_elem_of_In, list_elem_of_omap. split.
  - exists (("video_" ++ v)%string, coll). split.
    + apply elem_of_map_to_list. rewrite Hdb. apply lookup_insert_eq.
    + unfold processed_entry; cbv beta iota.
      rewrite lit_app, is_prefix_app. reflexivity.
  - cbn [pv_video_id pv_collection_name pv_chunk_count].
    split; [apply listed_id_of_name, Hno|]. split; [reflexivity|exact Hcount].
Qed.

Lemma process_video_then_listed_witness :
  exists v n info k db',
    (process_video 10 (sample_analyzer long_desc (ROk [])) zero_model
       other_store sample_url 500 50 = Some (IngestSuccess v n info k, db') /\
     ~ infix (lit "video_") (lit v)) /\
    exists p, In p (list_processed_videos db') /\ pv_video_id p = v /\
              pv_collection_name p = n /\ pv_chunk_count p = k.
Proof.
  assert (Htag : success_id (process_video 10 (sample_analyzer long_desc (ROk []))
                   zero_model other_store sample_url 500 50) = Some "abc123XYZ_-")
    by (vm_compute; reflexivity).
  revert Htag.
  destruct (process_video 10 (sample_analyzer long_desc (ROk [])) zero_model
              other_store sample_url 500 50)
    as [[[v n info k| |] db']|] eqn:Hrun; intros Htag; try discriminate Htag.
  injection Htag as Hv.
  assert (Hno : ~ infix (lit "video_") (lit v)).
  { intros Hi. apply occurs_b_infix in Hi. subst v. vm_compute in Hi.
    discriminate. }
  exists v, n, info, k, db'. split; [split; [reflexivity|exact Hno]|].
  exact (process_video_then_listed 10%nat _ _ _ _ _ _ v n info k db' Hrun Hno).
Defined.

(** X: [QAEngine.list_available_videos] and
    [VideoProcessor.list_processed_videos] show the same videos, in the same
    order, with the same id, title, channel and chunk count. *)
Theorem listings_agree db :
  map (fun a => (av_video_id a, av_title a, av_channel a, av_chunks a))
      (list_available_videos db) =
  map (fun p => (pv_video_id p, pv_title p, pv_channel p, pv_chunk_count p))
      (list_processed_videos db).
Proof.
  unfold list_available_videos, list_processed_videos.
  induction (list_collections db) as [|[name c] l IH]; [reflexivity|].
  rewrite !omap_cons. cbn [available_entry processed_entry].
  destruct (is_prefix _ _); [cbn [map]; rewrite IH; reflexivity|exact IH].
Qed.

(** ** [answer_question]: the retrieved records and the answer *)

Abbreviation hit := (text * chunk_meta * Q)%type.

Definition closer (x y : hit) : Prop := (snd x <= snd y)%Q.

Lemma foldr_insert_length (l : list hit) :
  length (foldr insert_by_distance [] l) = length l.
Proof.
  induction l as [|x l IH]; simpl; [reflexivity|].
  rewrite insert_by_distance_length, IH; reflexivity.
Qed.

Lemma HdRel_insert y x l :
  closer y x -> HdRel closer y l -> HdRel closer y (insert_by_distance x l).
Proof.
  intros Hyx Hl. destruct l as [|z l]; simpl; [constructor; exact Hyx|].
  inversion Hl; subst.
  destruct (Qle_bool (snd x) (snd z)); constructor; assumption.
Qed.

Lemma insert_sorted x l :
  Sorted closer l -> Sorted closer (insert_by_distance x l).
Proof.
  intros H; induction H as [|y l Hs IH Hhd]; simpl; [repeat constructor|].
  destruct (Qle_bool (snd x) (snd y)) eqn:E.
  - constructor; [constructor; assumption|constructor; apply Qle_bool_iff, E].
  - constructor; [exact IH|]. apply HdRel_insert; [|exact Hhd].
    unfold closer. apply Qlt_le_weak, Qnot_le_lt. intros Hle.
    apply Qle_bool_iff in Hle. congruence.
Qed.

Lemma Sorted_firstn {T} (R : T -> T -> Prop) n l :
  Sorted R l -> Sorted R (firstn n l).
Proof.
  revert n; induction l as [|x l IH]; intros [|n] H; simpl;
    [constructor|constructor|constructor|].
  inversion H; subst. constructor; [apply IH; assumption|].
  destruct l as [|y l]; destruct n; simpl; constructor.
  inversion H3; assumption.
Qed.

Lemma Forall_insert (P : hit -> Prop) x l :
  P x -> Forall P l -> Forall P (insert_by_distance x l).
Proof.
  intros Hx Hl; induction Hl as [|y l Hy Hl IH]; simpl; [repeat constructor; assumption|].
  destruct (Qle_bool (snd x) (snd y)); repeat constructor; assumption.
Qed.

Lemma Forall_firstn' {T} (P : T -> Prop) n l : Forall P l -> Forall P (firstn n l).
Proof.
  revert n; induction l as [|x l IH]; intros [|n] H; simpl;
    [constructor|constructor|constructor|].
  inversion H; subst. constructor; [assumption|apply IH; assumption].
Qed.

Lemma sq_l2_nonneg u v : (0 <= sq_l2 u v)%Q.
Proof.
  revert v; induction u as [|x u IH]; intros [|y v]; simpl; try apply Qle_refl.
  apply (Qplus_le_compat 0 _ 0); [|apply IH].
  destruct (x - y)%Q as [p d]. unfold Qle, Qmult; simpl. nia.
Qed.

(** What [collection.query] hands back: the records nearest first, each
    with a distance [>= 0], and [min(n, count)] of them. *)
Lemma chroma_query_hits c q n rs :
  chroma_query c q n = ROk rs ->
  0 < n /\ Sorted closer rs /\ Forall (fun x => (0 <= snd x)%Q) rs /\
  length rs = Nat.min (Z.to_nat n) (count c).
Proof.
  unfold chroma_query. destruct (n <=? 0) eqn:Hn; [discriminate|].
  intros H; injection H as <-. split; [lia|].
  split; [apply Sorted_firstn|split; [apply Forall_firstn'|]].
  - induction (c_items c) as [|s l IH]; simpl; [constructor|].
    apply insert_sorted, IH.
  - induction (c_items c) as [|s l IH]; simpl; [constructor|].
    apply Forall_insert; [apply sq_l2_nonneg|exact IH].
  - rewrite length_firstn, foldr_insert_length, length_map. reflexivity.
Qed.

Lemma imap_sources_sorted (g : nat -> hit -> source) rs :
  (forall i r, src_relevance_score (g i r) = (1 - snd r)%Q) ->
  Sorted closer rs ->
  Sorted (fun a b => (src_relevance_score b <= src_relevance_score a)%Q) (imap g rs).
Proof.
  revert g; induction rs as [|x rs IH]; intros g Hg H; simpl; [constructor|].
  inversion H as [|? ? Hs Hhd]; subst. constructor.
  - apply IH; [intros i r; apply Hg|exact Hs].
  - destruct rs as [|y rs]; simpl; constructor. inversion Hhd; subst.
    rewrite !Hg. unfold closer in *. lra.
Qed.

Lemma imap_sources_bounded (g : nat -> hit -> source) rs :
  (forall i r, src_relevance_score (g i r) = (1 - snd r)%Q) ->
  Forall (fun x => (0 <= snd x)%Q) rs ->
  Forall (fun s => (src_relevance_score s <= 1)%Q) (imap g rs).
Proof.
  revert g; induction rs as [|x rs IH]; intros g Hg H; simpl; [constructor|].
  inversion H; subst. constructor; [rewrite Hg; lra|].
  apply IH; [intros i r; apply Hg|assumption].
Qed.

Lemma make_source_score i r : src_relevance_score (make_source i r) = (1 - snd r)%Q.
Proof. destruct r as [[chunk m] d]; reflexivity. Qed.

(** The sources of every answer are built from one successful query. *)
Lemma answer_sources_from_query qa be db question video_id temp mt :
  answer_sources (fst (answer_question qa be db question video_id temp mt)) = []
  \/ exists coll rs,
       db !! ("video_" ++ video_id)%string = Some coll /\
       chroma_query coll (embed_text (qa_embedding_model qa) question)
         (Z.min (qa_top_k qa) (Z.of_nat (count coll))) = ROk rs /\
       answer_sources (fst (answer_question qa be db question video_id temp mt))
         = build_sources rs.
Proof.
  unfold answer_question; cbv zeta.
  destruct (db !! ("video_" ++ video_id)%string) as [coll|]; [|left; reflexivity].
  destruct (chroma_query coll _ _) as [[|r rs]|e] eqn:Hq;
    [left; reflexivity| |left; reflexivity].
  right. exists coll, (r :: rs). split; [reflexivity|]. split; [exact Hq|].
  destruct (_check_ollama be) as [[|] evs]; [|reflexivity].
  simpl negb; cbv iota.
  destruct (ollama_generate _ _ _ _ _ _); reflexivity.
Qed.

(** X: the sources of an answer are listed by non-increasing relevance
    score: [1 - distance] over the records Chroma returns nearest first. *)
Theorem answer_question_sources_ordered qa be db question video_id temperature
  max_tokens :
  Sorted (fun a b => (src_relevance_score b <= src_relevance_score a)%Q)
    (answer_sources (fst (answer_question qa be db question video_id
                            temperature max_tokens))).
Proof.
  destruct (answer_sources_from_query qa be db question video_id temperature
              max_tokens) as [->|(coll & rs & _ & Hq & ->)]; [constructor|].
  apply imap_sources_sorted; [apply make_source_score|].
  apply (chroma_query_hits _ _ _ _ Hq).
Qed.

(** X: no source has a relevance score above 1: Chroma's squared L2
    distance is never negative. *)
Theorem answer_question_relevance_at_most_one qa be db question video_id
  temperature max_tokens :
  Forall (fun s => (src_relevance_score s <= 1)%Q)
    (answer_sources (fst (answer_question qa be db question video_id
                            temperature max_tokens))).
Proof.
  destruct (answer_sources_from_query qa be db question video_id temperature
              max_tokens) as [->|(coll & rs & _ & Hq & ->)]; [constructor|].
  apply imap_sources_bounded; [apply make_source_score|].
  apply (chroma_query_hits _ _ _ _ Hq).
Qed.


(** X: [answer_question] never answers with status ["no_context"]: the
    query asks for [min(top_k, count)] results, so it either raises
    (nothing to ask for) or returns at least one record. *)
Theorem answer_question_never_no_context qa be db question video_id
  temperature max_tokens :
  answer_status (fst (answer_question qa be db question video_id temperature
                        max_tokens)) <> Some "no_context".
Proof.
  unfold answer_question; cbv zeta.
  destruct (db !! ("video_" ++ video_id)%string) as [coll|]; [|discriminate].
  destruct (chroma_query coll _ _) as [[|r rs]|e] eqn:Hq; [|clear Hq|discriminate].
  - apply chroma_query_hits in Hq as (Hn & _ & _ & Hlen). simpl in Hlen. lia.
  - destruct (_check_ollama be) as [[|] evs]; [|discriminate].
    simpl negb; cbv iota.
    destruct (ollama_generate _ _ _ _ _ _); discriminate.
Qed.



(** X: when Ollama is up but generation fails ([llm_error]), the answer is
    the error text followed by the same context, and the same non-empty
    sources, that [answer_question] gives with Ollama unavailable
    ([no_llm]). *)
Theorem answer_question_llm_error_context qa be be' db question video_id
  temperature max_tokens temperature' max_tokens' ans srcs title vid e :
  fst (answer_question qa be db question video_id temperature max_tokens) =
    AnsLLMError ans srcs title vid e ->
  ollama_imported be' = false \/ ollama_list_ok be' = false ->
  srcs <> [] /\
  exists context, ans = llm_error_answer e context /\
    fst (answer_question qa be' db question video_id temperature' max_tokens')
    = AnsNoLLM (no_llm_prefix ++ context) srcs title vid.
Proof.
  intros H Hdown. destruct (check_ollama_down be' Hdown) as [evs' Hc].
  unfold answer_question in *; cbv zeta in *.
  destruct (db !! ("video_" ++ video_id)%string) as [coll|]; [|discriminate].
  destruct (chroma_query coll _ _) as [[|r rs]|err]; try discriminate.
  rewrite Hc.
  destruct (_check_ollama be) as [[|] evs]; [|discriminate].
  simpl negb in H; cbv iota in H.
  destruct (ollama_generate _ _ _ _ _ _); [discriminate|].
  injection H as <- <- <- <- <-. split.
  - unfold build_sources. intros Hs. apply (f_equal length) in Hs.
    rewrite length_imap in Hs. discriminate.
  - eexists. split; reflexivity.
Qed.

Lemma answer_question_llm_error_context_witness :
  exists ans srcs title vid e,
    (fst (answer_question default_engine failing_ollama other_store (lit "Hi?")
            "other" (7 # 10) 500) = AnsLLMError ans srcs title vid e /\
     (ollama_imported no_ollama = false \/ ollama_list_ok no_ollama = false)) /\
    srcs <> [] /\
    exists context, ans = llm_error_answer e context /\
      fst (answer_question default_engine no_ollama other_store (lit "Hi?")
             "other" 0 100)
      = AnsNoLLM (no_llm_prefix ++ context) srcs title vid.
Proof.
  destruct (fst (answer_question default_engine failing_ollama other_store
                   (lit "Hi?") "other" (7 # 10) 500))
    as [e0|a0|a1 s1 t1 v1|a2 s2 t2 v2 m2|ans srcs title vid e|x0] eqn:Hrun;
    try (vm_compute in Hrun; discriminate).
  exists ans, srcs, title, vid, e. split; [split; [reflexivity|left; reflexivity]|].
  exact (answer_question_llm_error_context default_engine failing_ollama no_ollama
           other_store (lit "Hi?") "other" (7 # 10) 500 0 100 ans srcs title vid e
           Hrun (or_introl eq_refl)).
Defined.

(** ** [_extract_video_id] *)

Lemma take_while_app (p : ascii -> bool) a b :
  forallb p a = true -> (b = [] \/ exists c r, b = c :: r /\ p c = false) ->
  take_while p (a ++ b) = a.
Proof.
  intros Ha Hb. induction a as [|c a IH]; simpl in *.
  - destruct Hb as [->|(c & r & -> & Hc)]; simpl; [reflexivity|rewrite Hc; reflexivity].
  - apply andb_prop in Ha as [Hc Ha]. rewrite Hc, IH by exact Ha. reflexivity.
Qed.

(** X: [_extract_video_id] recovers the id from a watch URL
    ["https://www.youtube.com/watch?v=" + id + rest] and from a short URL
    ["https://youtu.be/" + id + rest], when the id has none of the
    characters [&], [?] and newline and [rest] is empty or starts with one
    of them. *)
Theorem extract_video_id_round_trip prefix vid rest :
  In prefix ["https://www.youtube.com/watch?v="; "https://youtu.be/"]%string ->
  forallb id_char (lit vid) = true ->
  (rest = ""%string \/ exists c r, lit rest = c :: r /\ id_char c = false) ->
  _extract_video_id (prefix ++ vid ++ rest) = vid.
Proof.
  intros Hp Hv Hr.
  assert (Hr' : lit rest = [] \/ exists c r, lit rest = c :: r /\ id_char c = false)
    by (destruct Hr as [->|H]; [left; reflexivity|right; exact H]).
  unfold _extract_video_id. rewrite !lit_app.
  destruct Hp as [<-|[<-|[]]]; simpl;
    rewrite ?drop_0, take_while_app by assumption;
    apply string_of_list_ascii_of_string.
Qed.

Lemma extract_video_id_round_trip_witness :
  (In "https://youtu.be/"%string
     ["https://www.youtube.com/watch?v="; "https://youtu.be/"]%string /\
   forallb id_char (lit "dQw4w9WgXcQ") = true /\
   ("?t=42"%string = ""%string \/
    exists c r, lit "?t=42" = c :: r /\ id_char c = false)) /\
  _extract_video_id ("https://youtu.be/" ++ "dQw4w9WgXcQ" ++ "?t=42") = "dQw4w9WgXcQ".
Proof.
  assert (H1 : In "https://youtu.be/"%string
                 ["https://www.youtube.com/watch?v="; "https://youtu.be/"]%string)
    by (right; left; reflexivity).
  assert (H2 : forallb id_char (lit "dQw4w9WgXcQ") = true) by reflexivity.
  assert (H3 : "?t=42"%string = ""%string \/
               exists c r, lit "?t=42" = c :: r /\ id_char c = false)
    by (right; do 2 eexists; split; reflexivity).
  split; [split; [exact H1|split; [exact H2|exact H3]]|].
  exact (extract_video_id_round_trip _ _ _ H1 H2 H3).
Defined.

Lemma try_alternatives_some alts s g :
  try_alternatives alts s = Some g -> exists a, In a alts /\ is_prefix a s = true.
Proof.
  induction alts as [|a alts IH]; simpl; [discriminate|].
  destruct (is_prefix a s) eqn:Hp; intros H; [exists a; auto|].
  destruct (IH H) as (b & Hb & Hbp). exists b; auto.
Qed.

Lemma re_search_some alts s g :
  re_search alts s = Some g -> exists a, In a alts /\ infix a s.
Proof.
  induction s as [|c s IH]; simpl.
  - destruct (try_alternatives alts []) eqn:Ht; [|discriminate]. intros _.
    destruct (try_alternatives_some _ _ _ Ht) as (a & Ha & Hp).
    destruct (is_prefix_spec _ _ Hp) as [k Hk].
    exists a. split; [exact Ha|exists [], k; exact Hk].
  - destruct (try_alternatives alts (c :: s)) eqn:Ht; intros H.
    + destruct (try_alternatives_some _ _ _ Ht) as (a & Ha & Hp).
      destruct (is_prefix_spec _ _ Hp) as [k Hk].
      exists a. split; [exact Ha|exists [], k; exact Hk].
    + destruct (IH H) as (a & Ha & k1 & k2 & Hk).
      exists a. split; [exact Ha|exists (c :: k1), k2; rewrite Hk; reflexivity].
Qed.

Lemma first_match_some pats s g :
  first_match pats s = Some g -> exists a, In a (concat pats) /\ infix a s.
Proof.
  induction pats as [|p pats IH]; simpl; [discriminate|].
  destruct (re_search p s) eqn:Hr; intros H.
  - destruct (re_search_some _ _ _ Hr) as (a & Ha & Hi).
    exists a. split; [apply in_or_app; left; exact Ha|exact Hi].
  - destruct (IH H) as (a & Ha & Hi).
    exists a. split; [apply in_or_app; right; exact Ha|exact Hi].
Qed.

(** X: a string containing none of ["youtube.com/watch?v="],
    ["youtu.be/"], ["youtube.com/embed/"] and ["youtube.com/v/"] is taken
    to be a video id already: [_extract_video_id] returns it unchanged. *)
Theorem extract_video_id_fallback url :
  (forall alt, In alt (concat url_patterns) -> ~ infix alt (lit url)) ->
  _extract_video_id url = url.
Proof.
  intros Hno. unfold _extract_video_id.
  destruct (first_match url_patterns (lit url)) as [g|] eqn:Hm; [|reflexivity].
  destruct (first_match_some _ _ _ Hm) as (a & Ha & Hi).
  exfalso. exact (Hno a Ha Hi).
Qed.

Lemma extract_video_id_fallback_witness :
  (forall alt, In alt (concat url_patterns) -> ~ infix alt (lit "dQw4w9WgXcQ")) /\
  _extract_video_id "dQw4w9WgXcQ" = "dQw4w9WgXcQ".
Proof.
  assert (H : forall alt, In alt (concat url_patterns) ->
                          ~ infix alt (lit "dQw4w9WgXcQ")).
  { intros alt Ha Hi. apply occurs_b_infix in Hi.
    simpl in Ha. repeat destruct Ha as [<-|Ha]; try contradiction;
      vm_compute in Hi; discriminate. }
  split; [exact H|exact (extract_video_id_fallback _ H)].
Defined.

(** ** [answer_question]: the call to the LLM *)

Lemma infix_refl {A} (x : list A) : infix x x.
Proof. exists [], []. rewrite app_nil_r. reflexivity. Qed.

Lemma infix_prefix {A} (x k : list A) : infix x (x ++ k).
Proof. exists [], k. reflexivity. Qed.

Lemma infix_app_l {A} (x y z : list A) : infix x y -> infix x (z ++ y).
Proof. intros (k1 & k2 & ->). exists (z ++ k1), k2. rewrite <- app_assoc. reflexivity. Qed.

Lemma infix_app_prefix {A} (x y k : list A) : infix x y -> infix x (y ++ k).
Proof. intros (k1 & k2 & ->). exists k1, (k2 ++ k). rewrite <- !app_assoc. reflexivity. Qed.

Lemma infix_trans {A} (x y z : list A) : infix x y -> infix y z -> infix x z.
Proof.
  intros (a1 & a2 & ->) (b1 & b2 & ->). exists (b1 ++ a1), (a2 ++ b2).
  rewrite <- !app_assoc. reflexivity.
Qed.

Lemma join_infix sep parts p : In p parts -> infix p (join sep parts).
Proof.
  induction parts as [|q parts IH]; [intros []|].
  intros [->|Hin].
  - destruct parts; [apply infix_refl|apply infix_prefix].
  - destruct parts as [|q' parts]; [destruct Hin|].
    change (join sep (q :: q' :: parts)) with (q ++ sep ++ join sep (q' :: parts)).
    apply infix_app_l, infix_app_l, IH, Hin.
Qed.

Lemma in_imap {A B} (g : nat -> A -> B) l x :
  In x l -> exists i, In (g i x) (imap g l).
Proof.
  revert g; induction l as [|y l IH]; intros g Hx; [destruct Hx|].
  destruct Hx as [->|Hin]; simpl.
  - exists 0%nat. left; reflexivity.
  - destruct (IH (fun i => g (S i)) Hin) as [i Hi]. exists (S i). right; exact Hi.
Qed.

Lemma context_has_chunks rs r : In r rs -> infix (fst (fst r)) (build_context rs).
Proof.
  intros Hin. destruct (in_imap make_context_part rs r Hin) as [i Hi].
  eapply infix_trans; [|apply join_infix, Hi].
  destruct r as [[chunk m] d]. unfold make_context_part; cbv beta iota.
  unfold context_chunk, fst.
  apply infix_app_l, infix_app_l, infix_app_l, infix_refl.
Qed.

Lemma check_ollama_events be : Forall (fun e => e = EvListModels) (snd (_check_ollama be)).
Proof. unfold _check_ollama. destruct (ollama_imported be); repeat constructor. Qed.

Ltac infix_in_prompt :=
  repeat first [apply infix_prefix | apply infix_app_l].

(** X: the only LLM call [answer_question] makes goes to the engine's
    model, with a prompt that contains the question and the full text of
    every record the query returned. *)
Theorem answer_question_prompt_content qa be db question video_id temperature
  max_tokens model prompt :
  In (EvGenerate model prompt)
     (snd (answer_question qa be db question video_id temperature max_tokens)) ->
  model = qa_llm_model qa /\ infix question prompt /\
  exists coll rs,
    db !! ("video_" ++ video_id)%string = Some coll /\
    chroma_query coll (embed_text (qa_embedding_model qa) question)
      (Z.min (qa_top_k qa) (Z.of_nat (count coll))) = ROk rs /\
    Forall (fun r => infix (fst (fst r)) prompt) rs.
Proof.
  pose proof (check_ollama_events be) as Hev.
  unfold answer_question; cbv zeta.
  destruct (db !! ("video_" ++ video_id)%string) as [coll|] eqn:Hdb;
    [|intros [H|[]]; discriminate].
  destruct (chroma_query coll _ _) as [[|r rs]|e] eqn:Hq;
    [intros H; repeat destruct H as [H|H]; try discriminate; contradiction| |
     intros H; repeat destruct H as [H|H]; try discriminate; contradiction].
  destruct (_check_ollama be) as [[|] evs]; simpl negb; cbv iota; simpl snd in Hev.
  - intros H. assert (Hg : EvGenerate model prompt =
                           EvGenerate (qa_llm_model qa)
                             (qa_prompt (get_or "Unknown" (c_video_title coll))
                                (get_or "Unknown" (c_channel coll))
                                (build_context (r :: rs)) question)).
    { rewrite List.Forall_forall in Hev.
      destruct (ollama_generate _ _ _ _ _ _); simpl snd in H;
        destruct H as [H|[H|[H|H]]]; try discriminate;
        (apply in_app_iff in H as [H|[H|[]]];
         [apply Hev in H; discriminate|symmetry; exact H]). }
    injection Hg as -> ->. split; [reflexivity|]. split.
    + unfold qa_prompt. infix_in_prompt.
    + exists coll, (r :: rs). split; [reflexivity|]. split; [exact Hq|].
      apply List.Forall_forall. intros x Hx.
      eapply infix_trans; [apply context_has_chunks, Hx|].
      unfold qa_prompt. infix_in_prompt.
  - intros H. simpl snd in H. destruct H as [H|[H|[H|H]]]; try discriminate.
    rewrite List.Forall_forall in Hev. apply Hev in H. discriminate.
Qed.

Lemma answer_question_prompt_content_witness :
  exists model prompt,
    In (EvGenerate model prompt)
       (snd (answer_question default_engine failing_ollama other_store (lit "Hi?")
               "other" (7 # 10) 500)) /\
    model = qa_llm_model default_engine /\ infix (lit "Hi?") prompt /\
    exists coll rs,
      other_store !! ("video_" ++ "other")%string = Some coll /\
      chroma_query coll (embed_text (qa_embedding_model default_engine) (lit "Hi?"))
        (Z.min (qa_top_k default_engine) (Z.of_nat (count coll))) = ROk rs /\
      Forall (fun r => infix (fst (fst r)) prompt) rs.
Proof.
  assert (Hin : forall evs m p, find_generate evs = Some (m, p) ->
                                In (EvGenerate m p) evs).
  { induction evs as [|ev evs IH]; intros m p H; [discriminate|].
    destruct ev; simpl in H; try (right; apply IH, H).
    injection H as -> ->. left; reflexivity. }
  destruct (find_generate (snd (answer_question default_engine failing_ollama
              other_store (lit "Hi?") "other" (7 # 10) 500)))
    as [[model prompt]|] eqn:E; [|vm_compute in E; discriminate].
  apply Hin in E. exists model, prompt. split; [exact E|].
  exact (answer_question_prompt_content default_engine failing_ollama other_store
           (lit "Hi?") "other" (7 # 10) 500 model prompt E).
Defined.

(** X: with Ollama missing or not running, [answer_question] never calls
    [ollama.generate]. *)
Theorem answer_question_no_generate_when_down qa be db question video_id
  temperature max_tokens :
  ollama_imported be = false \/ ollama_list_ok be = false ->
  forall model prompt,
    ~ In (EvGenerate model prompt)
        (snd (answer_question qa be db question video_id temperature max_tokens)).
Proof.
  intros Hdown model prompt.
  pose proof (check_ollama_events be) as Hev.
  destruct (check_ollama_down be Hdown) as [evs Hc].
  rewrite Hc in Hev; simpl snd in Hev. rewrite List.Forall_forall in Hev.
  unfold answer_question; cbv zeta.
  destruct (db !! ("video_" ++ video_id)%string) as [coll|];
    [|intros [H|[]]; discriminate].
  destruct (chroma_query coll _ _) as [[|r rs]|e];
    [intros H; repeat destruct H as [H|H]; try discriminate; contradiction| |
     intros H; repeat destruct H as [H|H]; try discriminate; contradiction].
  rewrite Hc. simpl negb; cbv iota.
  intros H. simpl snd in H. destruct H as [H|[H|[H|H]]]; try discriminate.
  apply Hev in H. discriminate.
Qed.

Lemma answer_question_no_generate_when_down_witness :
  (ollama_imported no_ollama = false \/ ollama_list_ok no_ollama = false) /\
  forall model prompt,
    ~ In (EvGenerate model prompt)
        (snd (answer_question default_engine no_ollama other_store (lit "Hi?")
                "other" (7 # 10) 500)).
Proof.
  assert (H : ollama_imported no_ollama = false \/ ollama_list_ok no_ollama = false)
    by (left; reflexivity).
  split; [exact H|].
  exact (answer_question_no_generate_when_down default_engine no_ollama other_store
           (lit "Hi?") "other" (7 # 10) 500 H).
Defined.

(** ** Composition and edge cases of the listing *)

(** X: ingesting a video that was not in the store and then deleting it
    gives back the store as it was, and [delete_video] reports [True]. *)
Theorem process_video_then_delete fuel yt em db video_url chunk_size
  chunk_overlap v n info k db' :
  process_video fuel yt em db video_url chunk_size chunk_overlap =
    Some (IngestSuccess v n info k, db') ->
  db !! n = None ->
  delete_video db' v = (true, db).
Proof.
  intros H Hnone.
  destruct (process_video_success_store _ _ _ _ _ _ _ _ _ _ _ _ H)
    as (_ & Hn & d & chunks & coll & _ & _ & _ & _ & _ & Hdb & _).
  unfold delete_video; cbv zeta. rewrite <- Hn, Hdb, lookup_insert_eq.
  rewrite delete_insert_eq, delete_id by exact Hnone. reflexivity.
Qed.

Lemma process_video_then_delete_witness :
  exists v n info k db',
    (process_video 10 (sample_analyzer long_desc (ROk [])) zero_model other_store
       sample_url 500 50 = Some (IngestSuccess v n info k, db') /\
     other_store !! n = None) /\
    delete_video db' v = (true, other_store).
Proof.
  assert (Htag : success_id (process_video 10 (sample_analyzer long_desc (ROk []))
                   zero_model other_store sample_url 500 50) = Some "abc123XYZ_-")
    by (vm_compute; reflexivity).
  revert Htag.
  destruct (process_video 10 (sample_analyzer long_desc (ROk [])) zero_model
              other_store sample_url 500 50)
    as [[[v n info k| |] db']|] eqn:Hrun; intros Htag; try discriminate Htag.
  injection Htag as Hv.
  assert (Hnone : other_store !! n = None).
  { destruct (process_video_success_store _ _ _ _ _ _ _ _ _ _ _ _ Hrun)
      as (_ & Hn & _). subst n v. vm_compute. reflexivity. }
  exists v, n, info, k, db'. split; [split; [reflexivity|exact Hnone]|].
  exact (process_video_then_delete 10%nat _ _ _ _ _ _ v n info k db' Hrun Hnone).
Defined.

Lemma replace_go_nil_bound sub d s :
  (length (replace_go sub [] d s) + Nat.min d (length s) <= length s)%nat.
Proof.
  revert d; induction s as [|c r IH]; intros d; simpl; [lia|].
  destruct d as [|d'].
  - destruct (is_prefix sub (c :: r)); simpl;
      [pose proof (IH (length sub - 1)%nat); lia|pose proof (IH 0%nat); lia].
  - pose proof (IH d'). lia.
Qed.

Lemma replace_go_nil_shorter sub s :
  sub <> [] -> infix sub s -> (length (replace_go sub [] 0 s) < length s)%nat.
Proof.
  intros Hne. induction s as [|c r IH]; intros Hi.
  - destruct Hi as (k1 & k2 & Hk). destruct k1, sub; try discriminate. contradiction.
  - simpl. destruct (is_prefix sub (c :: r)) eqn:Hp; simpl.
    + pose proof (replace_go_nil_bound sub (length sub - 1) r). lia.
    + assert (Hr : infix sub r).
      { destruct Hi as ([|c' k1] & k2 & Hk).
        - simpl in Hk. rewrite Hk, is_prefix_app in Hp. discriminate.
        - injection Hk as _ Hk. exists k1, k2. exact Hk. }
      specialize (IH Hr). lia.
Qed.

Lemma py_replace_video_prefix x :
  py_replace (lit "video_") [] (lit "video_" ++ x) = replace_go (lit "video_") [] 0 x.
Proof. reflexivity. Qed.

(** X: the listing does not give back a video id that itself contains
    ["video_"]: [collection.name.replace("video_", "")] also removes that
    inner occurrence, so the listed id differs from the real one. *)
Theorem listed_id_mangled vid c :
  infix (lit "video_") (lit vid) ->
  exists p, processed_entry (("video_" ++ vid)%string, c) = Some p /\
            pv_video_id p <> vid.
Proof.
  intros Hi. unfold processed_entry; cbv beta iota.
  rewrite lit_app, is_prefix_app. eexists. split; [reflexivity|].
  cbn [pv_video_id]. rewrite py_replace_video_prefix. intros Heq.
  apply (f_equal lit) in Heq. unfold lit in Heq.
  rewrite list_ascii_of_string_of_list_ascii in Heq.
  pose proof (replace_go_nil_shorter (lit "video_") (lit vid) ltac:(discriminate) Hi)
    as Hlt.
  unfold lit in Hlt. rewrite Heq in Hlt. lia.
Qed.

Lemma listed_id_mangled_witness :
  infix (lit "video_") (lit "my_video_notes") /\
  exists p, processed_entry ("video_my_video_notes"%string, one_chunk_collection)
              = Some p /\ pv_video_id p <> "my_video_notes"%string.
Proof.
  assert (H : infix (lit "video_") (lit "my_video_notes"))
    by (exists (lit "my_"), (lit "notes"); reflexivity).
  split; [exact H|].
  exact (listed_id_mangled "my_video_notes" one_chunk_collection H).
Defined.
